(** * The cluster-wide GET of a DMap (dmap_get.go)

    A shallow embedding of the read path: version collection on the
    partition owner, its previous owners and its replicas, the quorum
    reconciler, the expiry and idleness gate, read repair, and the public
    [Get].  Stateful code is written in a small state-and-panic monad whose
    state is the DMap and the trace of lock operations, requests and writes
    made so far; log output is left out.  The collaborators that live
    outside dmap_get.go (storage engine, transport, partition table,
    serializers, write path, configuration) are the fields of the class
    [Cluster]. *)

From Stdlib Require Import String ZArith NArith List Bool Lia.
From Stdlib Require Import Permutation Sorted.
From Stdlib Require Strings.Byte.
Import ListNotations.

Local Open Scope Z_scope.

(** ** Byte slices and [bytes.Compare] *)

Definition bytes := list Byte.byte.

(** [bytes.Compare a b]: -1, 0 or +1 by lexicographic order of the unsigned
    bytes; a proper prefix is smaller. *)
Fixpoint bytes_Compare (a b : bytes) : Z :=
  match a, b with
  | [], [] => 0
  | [], _ :: _ => -1
  | _ :: _, [] => 1
  | x :: a', y :: b' =>
      match N.compare (Byte.to_N x) (Byte.to_N y) with
      | Lt => -1
      | Gt => 1
      | Eq => bytes_Compare a' b'
      end
  end.

(** ** Package storage *)

Module storage.

Record VData := mkVData {
  Key : string;
  Value : bytes;
  Timestamp : Z;   (* int64 *)
  TTL : Z          (* int64 *)
}.

(** The Go zero value [storage.VData{}]. *)
Definition zero : VData := mkVData EmptyString [] 0 0.

End storage.

Abbreviation VData := storage.VData.

(** ** Package protocol *)

Module protocol.

Inductive OpCode :=
| OpGet | OpGetPrev | OpGetBackup | OpPutReplica | OpPutExReplica.

(** The values stored in [Message.Extra] on the read path. *)
Inductive extra :=
| NoExtra
| PutExtra (Timestamp : Z)
| PutExExtra (Timestamp : Z) (TTL : Z).

Record Message := mkMessage {
  DMap : string;
  Key : string;
  Value : bytes;
  Extra : extra
}.

End protocol.

Abbreviation Message := protocol.Message.
Abbreviation OpCode := protocol.OpCode.

(** ** Errors *)

Inductive error :=
| ErrReadQuorum
| ErrKeyNotFound
| ErrOther (msg : string).

(** A Go pair [(value, err)] of which exactly one side is set. *)
Inductive result (A : Type) :=
| Ok (a : A)
| Err (e : error).

Arguments Ok {A} a.
Arguments Err {A} e.

(** ** Values behind [interface{}] at the user boundary *)

Inductive iface :=
| iface_nil
| iface_empty_struct                      (* dynamic type struct{} *)
| iface_other (type : string) (repr : bytes).

(** [_, ok := value.(struct{})] *)
Definition is_empty_struct (value : iface) : bool :=
  match value with
  | iface_empty_struct => true
  | _ => false
  end.

(** ** The write operation built by read repair *)

Record writeop := mkWriteop {
  dmap : string;
  key : string;
  value : bytes;
  timestamp : Z;
  timeout : Z       (* time.Duration *)
}.

(** ** Configuration *)

Record Config := mkConfig {
  ReadQuorum : Z;
  ReplicaCount : Z;
  ReadRepair : bool
}.

(** ** sortVersions' comparator *)

(** The closure handed to [sort.Slice], on the two dereferenced [Data]
    fields. *)
Definition less (di dj : VData) : bool :=
  if storage.Timestamp di =? storage.Timestamp dj then
    (* The first one is greater or equal than the second one. *)
    bytes_Compare (storage.Value di) (storage.Value dj) >=? 0
  else
    storage.Timestamp di >? storage.Timestamp dj.

(** The pair the comparator looks at. *)
Definition vkey (d : VData) : Z * bytes :=
  (storage.Timestamp d, storage.Value d).

(** ** sort.Slice

    The standard library sorts a slice of at most twelve elements with
    [insertionSort] (releases before 1.19 make one pass of gap-6 exchanges
    first); longer slices are partitioned first and every part is finished
    by the same routine.  What the code below reads off the result, the
    (timestamp, value) pair of its head, is the same for every routine that
    leaves the slice in comparator order ([sorted_permutation_head]).  The
    routine is

      for i := a + 1; i < b; i++ {
        for j := i; j > a && less(j, j-1); j-- { swap(j, j-1) }
      }

    [sift lt x rp] is the inner loop: [rp] is data[a..i-1] read from the
    right, [x] is data[i]; the result is data[a..i], again read from the
    right. *)

Fixpoint sift {A : Type} (lt : A -> A -> bool) (x : A) (rp : list A) : list A :=
  match rp with
  | [] => [x]
  | y :: rp' => if lt x y then y :: sift lt x rp' else x :: rp
  end.

Definition insertionSort {A : Type} (lt : A -> A -> bool) (l : list A) : list A :=
  rev (fold_left (fun rp x => sift lt x rp) l []).

Definition sort_Slice {A : Type} (lt : A -> A -> bool) (l : list A) : list A :=
  insertionSort lt l.

(** [rp], read from the right, is in order: every element is at or before
    all the elements to its left. *)
Definition ordered_from_right {A : Type} (lt : A -> A -> bool) (rp : list A)
  : Prop :=
  StronglySorted (fun y z => lt z y = true) rp.

(** ** Destinations of msgpack.Unmarshal *)

(** How the caller hands its [storage.VData] variable to the decoder:
    [&value] (lookupOnReplicas) or [data] itself, copied (lookupOnOwners). *)
Inductive dest := ByPointer | ByValue.

(** ** Collaborators *)

Class Cluster := mkCluster {
  (** discovery.Member, [hostCmp] and [Member.String]. *)
  Member : Type;
  hostCmp : Member -> Member -> bool;
  Member_String : Member -> string;
  (** [db.this] and [db.config]; [config.MinimumReplicaCount]. *)
  this : Member;
  config : Config;
  MinimumReplicaCount : Z;
  (** The DMap behind the handle: storage engine and access log. *)
  dmapState : Type;
  storage_Get : dmapState -> N -> option VData;
  isKeyIdle : dmapState -> N -> bool;
  updateAccessLog_fn : N -> dmapState -> dmapState;
  localPut_fn : N -> writeop -> dmapState -> dmapState;
  (** [db.getDMap]: the error it returns, if any. *)
  getDMap : string -> N -> option error;
  (** Partition table and hashing. *)
  getHKey : string -> string -> N;
  findPartitionOwner : string -> string -> Member * N;
  getPartitionOwners : N -> list Member;
  getBackupPartitionOwners : N -> list Member;
  (** What the peer at an address answers to a request (the same answer
      when it is asked again). *)
  respond : string -> OpCode -> Message -> result Message;
  (** The cluster-internal codec: [Some] on a well-formed payload. *)
  decodeVData : bytes -> option VData;
  (** Whether msgpack.Unmarshal returns an error when its destination is
      not a pointer.  (vmihailenco/msgpack does, always: "Decode(nonsettable
      T)".) *)
  nonsettable_err : bytes -> bool;
  (** [db.serializer.Unmarshal] into an [interface{}]. *)
  serializer_Unmarshal : bytes -> result iface;
  (** [time.Now()] in the unit of [TTL]. *)
  now : Z;
  (** Whether a [range] loop has one variable for all its iterations (Go
      before 1.22) or a fresh one each time. *)
  rangeVarShared : bool
}.

Section Model.

Context {Cl : Cluster}.

(** ** Versions *)

(** [host] holds what [*ver.host] reads once the lookup has returned. *)
Record version := mkVersion {
  host : Member;
  Data : option VData
}.

(** A version that passed the [ver.Data != nil] test of
    [sanitizeAndSortVersions]: the comparator and the code after it
    dereference [Data] without a check. *)
Record dversion := mkDversion {
  dhost : Member;
  ddata : VData
}.

(** ** Effects *)

Inductive event :=
| EvRLock
| EvRUnlock
| EvLock
| EvUnlock
| EvRequest (addr : string) (op : OpCode) (req : Message)
| EvUpdateAccessLog (hkey : N)
| EvLocalPut (hkey : N) (w : writeop).

Record state := mkState {
  dmst : dmapState;
  trace : list event
}.

Inductive outcome (A : Type) :=
| Done (a : A) (s : state)
| Panic (msg : string).

Arguments Done {A} a s.
Arguments Panic {A} msg.

Definition M (A : Type) : Type := state -> outcome A.

Definition ret {A : Type} (a : A) : M A := fun s => Done a s.

Definition bind {A B : Type} (c : M A) (k : A -> M B) : M B :=
  fun s =>
    match c s with
    | Done a s' => k a s'
    | Panic msg => Panic msg
    end.

Definition panic {A : Type} (msg : string) : M A := fun _ => Panic msg.

Definition emit (e : event) : M unit :=
  fun s => Done tt (mkState (dmst s) (trace s ++ [e])).

Definition read_dm : M dmapState := fun s => Done (dmst s) s.

Definition modify_dm (f : dmapState -> dmapState) : M unit :=
  fun s => Done tt (mkState (f (dmst s)) (trace s)).

End Model.

Arguments Done {Cl A} a s.
Arguments Panic {Cl A} msg.

Notation "x <- c ;; k" := (bind c (fun x => k))
  (at level 61, c at next level, right associativity).
Notation "c ;; k" := (bind c (fun _ => k))
  (at level 61, right associativity).

Section Operations.

Context {Cl : Cluster}.

(** ** Collaborators called with an effect *)

(** [db.requestTo(addr, op, req)]: the request goes out, the peer's answer
    comes back. *)
Definition requestTo (addr : string) (op : OpCode) (req : Message)
  : M (result Message) :=
  emit (EvRequest addr op req) ;;
  ret (respond addr op req).

Definition updateAccessLog (hkey : N) : M unit :=
  emit (EvUpdateAccessLog hkey) ;;
  modify_dm (updateAccessLog_fn hkey).

(** [db.localPut(hkey, dm, w)]; its error is only logged by the caller. *)
Definition localPut (hkey : N) (w : writeop) : M unit :=
  emit (EvLocalPut hkey w) ;;
  modify_dm (localPut_fn hkey w).

(** Modelled from the spec: isKeyExpired is not in dmap_get.go; section 4.4
    gives it as true iff ttl is not 0 and now is at or past ttl. *)
Definition isKeyExpired (ttl : Z) : bool :=
  negb (ttl =? 0) && (ttl <=? now).

(** [msgpack.Unmarshal(payload, dst)] where [cell] is the caller's variable
    behind [dst]: the error flag, and the variable as the caller reads it
    afterwards.  Only a pointer lets the decoder write into it. *)
Definition msgpack_Unmarshal (payload : bytes) (d : dest) (cell : VData)
  : bool * VData :=
  match d with
  | ByPointer =>
      match decodeVData payload with
      | Some v => (false, v)
      | None => (true, cell)
      end
  | ByValue => (nonsettable_err payload, cell)
  end.

(** ** unmarshalValue *)

Definition unmarshalValue (rawval : bytes) : result iface :=
  match serializer_Unmarshal rawval with
  | Err err => Err err
  | Ok value =>
      if is_empty_struct value then Ok iface_nil else Ok value
  end.

(** ** lookupOnOwners *)

(** The loop [for i := len(owners) - 2; i >= 0; i--]; [n] is [i + 1]. *)
Fixpoint prevOwnersLoop (owners : list Member) (name key : string)
  (n : nat) (versions : list version) : M (list version) :=
  match n with
  | O => ret versions
  | S i =>
      match nth_error owners i with
      | None => panic "index out of range"
      | Some owner =>
          (* owner := owners[i] is a variable of this iteration: &owner
             keeps reading this owner. *)
          let req := protocol.mkMessage name key [] protocol.NoExtra in
          resp <- requestTo (Member_String owner) protocol.OpGetPrev req ;;
          match resp with
          | Err _ => prevOwnersLoop owners name key i versions
          | Ok resp =>
              let data := storage.zero in
              let '(err, data) :=
                msgpack_Unmarshal (protocol.Value resp) ByValue data in
              if err then prevOwnersLoop owners name key i versions
              else
                (* Ignore failed owners. *)
                prevOwnersLoop owners name key i
                  (versions ++ [mkVersion owner (Some data)])
          end
      end
  end.

Definition lookupOnOwners (hkey : N) (name key : string) : M (list version) :=
  (* Check on localhost, the partition owner. *)
  dm <- read_dm ;;
  let ver := mkVersion this (storage_Get dm hkey) in
  let versions := [ver] in
  (* Run a query on the previous owners. *)
  let owners := getPartitionOwners hkey in
  if (length owners =? 0)%nat then
    panic "partition owners list cannot be empty"
  else
    (* Traverse in reverse order. Except from the latest host, this one. *)
    prevOwnersLoop owners name key (length owners - 1) versions.

(** ** sortVersions, sanitizeAndSortVersions *)

Definition sortVersions (versions : list dversion) : list dversion :=
  sort_Slice (fun vi vj => less (ddata vi) (ddata vj)) versions.

(** We use versions slice for read-repair. Clear nil values first. *)
Fixpoint sanitize (versions : list version) : list dversion :=
  match versions with
  | [] => []
  | ver :: rest =>
      match Data ver with
      | Some d => mkDversion (host ver) d :: sanitize rest
      | None => sanitize rest
      end
  end.

Definition sanitizeAndSortVersions (versions : list version) : list dversion :=
  let sanitized := sanitize versions in
  if (length sanitized <=? 1)%nat then sanitized
  else sortVersions sanitized.

(** ** lookupOnReplicas *)

(** What [&replica] points at once the loop over [backups] is over: with one
    variable for the whole loop, the last backup; else this iteration's. *)
Definition replicaCell (backups : list Member) (replica : Member) : Member :=
  if rangeVarShared then last backups replica else replica.

Fixpoint replicasLoop (backups rest : list Member) (name key : string)
  (versions : list version) : M (list version) :=
  match rest with
  | [] => ret versions
  | replica :: rest' =>
      let req := protocol.mkMessage name key [] protocol.NoExtra in
      resp <- requestTo (Member_String replica) protocol.OpGetBackup req ;;
      let data :=
        match resp with
        | Err _ => None
        | Ok resp =>
            let value := storage.zero in
            let '(err, value) :=
              msgpack_Unmarshal (protocol.Value resp) ByPointer value in
            if err then None else Some value
        end in
      replicasLoop backups rest' name key
        (versions ++ [mkVersion (replicaCell backups replica) data])
  end.

Definition lookupOnReplicas (hkey : N) (name key : string) : M (list version) :=
  (* Check backups. *)
  let backups := getBackupPartitionOwners hkey in
  replicasLoop backups backups name key [].

(** ** readRepair *)

Fixpoint readRepair (name : string) (winner : dversion)
  (versions : list version) : M unit :=
  match versions with
  | [] => ret tt
  | ver :: rest =>
      let wd := ddata winner in
      let current :=
        match Data ver with
        | Some d => storage.Timestamp wd =? storage.Timestamp d
        | None => false
        end in
      if current then readRepair name winner rest
      else
        (* If readRepair is enabled, this function is called by every GET
           request. *)
        let '(op, ex) :=
          if storage.TTL wd =? 0 then
            (protocol.OpPutReplica, protocol.PutExtra (storage.Timestamp wd))
          else
            (protocol.OpPutExReplica,
             protocol.PutExExtra (storage.Timestamp wd) (storage.TTL wd)) in
        let req :=
          protocol.mkMessage name (storage.Key wd) (storage.Value wd) ex in
        (* Sync *)
        (if hostCmp (host ver) this then
           let hkey := getHKey name (storage.Key wd) in
           let w :=
             mkWriteop name (storage.Key wd) (storage.Value wd)
               (storage.Timestamp wd) (storage.TTL wd) in
           emit EvLock ;;
           localPut hkey w ;;
           emit EvUnlock
         else
           _ <- requestTo (Member_String (host ver)) op req ;;
           ret tt) ;;
        readRepair name winner rest
  end.

(** ** callGetOnCluster *)

(** Lines 221-225: the version set that goes to the reconciler. *)
Definition collectVersions (hkey : N) (name key : string) : M (list version) :=
  versions <- lookupOnOwners hkey name key ;;
  if ReadQuorum config >=? MinimumReplicaCount then
    v <- lookupOnReplicas hkey name key ;;
    ret (versions ++ v)
  else ret versions.

(** Lines 226-260: quorum checks, winner, expiry and idleness gate, access
    log, read repair, reply. *)
Definition reconcileAndReply (hkey : N) (name : string)
  (versions : list version) : M (result bytes) :=
  if Z.of_nat (length versions) <? ReadQuorum config then
    emit EvRUnlock ;;
    ret (Err ErrReadQuorum)
  else
    let sorted := sanitizeAndSortVersions versions in
    match sorted with
    | [] =>
        (* We checked everywhere, it's not here. *)
        emit EvRUnlock ;;
        ret (Err ErrKeyNotFound)
    | winner :: _ =>
        if Z.of_nat (length sorted) <? ReadQuorum config then
          emit EvRUnlock ;;
          ret (Err ErrReadQuorum)
        else
          (* The most up-to-date version of the values. *)
          dm <- read_dm ;;
          if isKeyExpired (storage.TTL (ddata winner)) || isKeyIdle dm hkey
          then
            emit EvRUnlock ;;
            ret (Err ErrKeyNotFound)
          else
            updateAccessLog hkey ;;
            emit EvRUnlock ;;
            (if ReadRepair config then readRepair name winner versions
             else ret tt) ;;
            ret (Ok (storage.Value (ddata winner)))
    end.

Definition callGetOnCluster (hkey : N) (name key : string) : M (result bytes) :=
  match getDMap name hkey with
  | Some err => ret (Err err)
  | None =>
      emit EvRLock ;;
      versions <- collectVersions hkey name key ;;
      reconcileAndReply hkey name versions
  end.

(** ** get, Get *)

Definition get (name key : string) : M (result bytes) :=
  let '(member, hkey) := findPartitionOwner name key in
  (* We are on the partition owner *)
  if hostCmp member this then callGetOnCluster hkey name key
  else
    (* Redirect to the partition owner *)
    let req := protocol.mkMessage name key [] protocol.NoExtra in
    resp <- requestTo (Member_String member) protocol.OpGet req ;;
    match resp with
    | Err err => ret (Err err)
    | Ok resp => ret (Ok (protocol.Value resp))
    end.

(** [(dm *DMap) Get(key)]; [name] is [dm.name]. *)
Definition DMap_Get (name key : string) : M (result iface) :=
  rawval <- get name key ;;
  match rawval with
  | Err err => ret (Err err)
  | Ok rawval => ret (unmarshalValue rawval)
  end.

(** ** Reading a run *)

(** A version as collected, data present. *)
Definition to_version (v : dversion) : version :=
  mkVersion (dhost v) (Some (ddata v)).

Definition has_data (ver : version) : bool :=
  match Data ver with
  | Some _ => true
  | None => false
  end.

Definition is_ok {A : Type} (r : result A) : bool :=
  match r with
  | Ok _ => true
  | Err _ => false
  end.

Definition OpCode_eqb (a b : OpCode) : bool :=
  match a, b with
  | protocol.OpGet, protocol.OpGet
  | protocol.OpGetPrev, protocol.OpGetPrev
  | protocol.OpGetBackup, protocol.OpGetBackup
  | protocol.OpPutReplica, protocol.OpPutReplica
  | protocol.OpPutExReplica, protocol.OpPutExReplica => true
  | _, _ => false
  end.

Definition is_update (e : event) : bool :=
  match e with
  | EvUpdateAccessLog _ => true
  | _ => false
  end.

Definition is_request (op : OpCode) (e : event) : bool :=
  match e with
  | EvRequest _ op' _ => OpCode_eqb op op'
  | _ => false
  end.

(** [dm.RLock()] and [dm.RUnlock()]. *)
Definition is_read_lock (e : event) : bool :=
  match e with
  | EvRLock | EvRUnlock => true
  | _ => false
  end.

(** [dm.Lock()], [dm.Unlock()] and the write they guard. *)
Definition is_write_lock (e : event) : bool :=
  match e with
  | EvLock | EvUnlock | EvLocalPut _ _ => true
  | _ => false
  end.

(** How often [dm.updateAccessLog] was called in a trace. *)
Definition count_updates (t : list event) : nat :=
  List.length (filter is_update t).

(** How many requests with opcode [op] were sent in a trace. *)
Definition count_requests (op : OpCode) (t : list event) : nat :=
  List.length (filter (is_request op) t).

(** The state after [dm.RUnlock()]. *)
Definition unlocked (s : state) : state :=
  mkState (dmst s) (trace s ++ [EvRUnlock]).

(** What a backup's GET-BACKUP answer contributes: the decoded payload, or
    nothing when the call fails or the payload does not decode. *)
Definition backupData (name key : string) (replica : Member) : option VData :=
  match respond (Member_String replica) protocol.OpGetBackup
          (protocol.mkMessage name key [] protocol.NoExtra) with
  | Err _ => None
  | Ok resp => decodeVData (protocol.Value resp)
  end.

Definition backupRequest (name key : string) (replica : Member) : event :=
  EvRequest (Member_String replica) protocol.OpGetBackup
    (protocol.mkMessage name key [] protocol.NoExtra).

(** The write that read repair hands to the local write path. *)
Definition repairWrite (name : string) (winner : dversion) : writeop :=
  mkWriteop name (storage.Key (ddata winner)) (storage.Value (ddata winner))
    (storage.Timestamp (ddata winner)) (storage.TTL (ddata winner)).

(** The request that read repair sends to a remote host. *)
Definition repairRequest (name : string) (winner : dversion) (ex : protocol.extra)
  : Message :=
  protocol.mkMessage name (storage.Key (ddata winner))
    (storage.Value (ddata winner)) ex.

End Operations.

(** ** Peer-side handlers

    What the handlers need beyond [Cluster]: the encoder of the
    cluster-internal codec, the error [storage.Get] returns for a key it does
    not hold, the backup DMap table and the partition's map of DMaps. *)

Class Handlers {Cl : Cluster} := mkHandlers {
  (** [msgpack.Marshal] of a [storage.VData]. *)
  msgpack_Marshal : VData -> result bytes;
  (** The error of [dm.storage.Get(hkey)] when it returns one. *)
  storage_Get_err : dmapState -> N -> error;
  (** [db.getBackupDMap]: the error it returns, if any. *)
  getBackupDMap : string -> N -> option error;
  (** [part.m.Load(req.DMap)]: whether the partition holds the DMap. *)
  partitionHasDMap : N -> string -> bool
}.

(** The status codes this file passes to [req.Error]. *)
Inductive StatusCode :=
| StatusErrKeyNotFound.

(** The message a handler returns: [req.Success()] with [Value] set,
    [req.Error(status, msg)], or [db.prepareResponse(req, err)]. *)
Inductive response :=
| RespSuccess (value : bytes)
| RespError (status : StatusCode) (msg : string)
| RespPrepared (err : error).

Section HandlerOperations.

Context {Cl : Cluster} {Hd : Handlers}.

Definition exGetOperation (req : Message) : M response :=
  value <- get (protocol.DMap req) (protocol.Key req) ;;
  match value with
  | Err err => ret (RespPrepared err)
  | Ok value => ret (RespSuccess value)
  end.

(** [defer dm.RUnlock()] runs when the function returns: the body computes
    the response, then the lock is released. *)
Definition getBackupOperation (req : Message) : M response :=
  let hkey := getHKey (protocol.DMap req) (protocol.Key req) in
  match getBackupDMap (protocol.DMap req) hkey with
  | Some err => ret (RespPrepared err)
  | None =>
      emit EvRLock ;;
      resp <-
        (dm <- read_dm ;;
         match storage_Get dm hkey with
         | None => ret (RespPrepared (storage_Get_err dm hkey))
         | Some vdata =>
             if isKeyExpired (storage.TTL vdata) then
               ret (RespError StatusErrKeyNotFound "key expired")
             else
               match msgpack_Marshal vdata with
               | Err err => ret (RespPrepared err)
               | Ok value => ret (RespSuccess value)
               end
         end) ;;
      emit EvRUnlock ;;
      ret resp
  end.

Definition getPrevOperation (req : Message) : M response :=
  let hkey := getHKey (protocol.DMap req) (protocol.Key req) in
  if negb (partitionHasDMap hkey (protocol.DMap req)) then
    ret (RespError StatusErrKeyNotFound "")
  else
    dm <- read_dm ;;
    match storage_Get dm hkey with
    | None => ret (RespPrepared (storage_Get_err dm hkey))
    | Some vdata =>
        if isKeyExpired (storage.TTL vdata) then
          ret (RespError StatusErrKeyNotFound "key expired")
        else
          match msgpack_Marshal vdata with
          | Err err => ret (RespPrepared err)
          | Ok value => ret (RespSuccess value)
          end
    end.

End HandlerOperations.

(** ** Reading a run, continued *)

Section Reading.

Context {Cl : Cluster}.

Definition prevRequest (name key : string) (owner : Member) : event :=
  EvRequest (Member_String owner) protocol.OpGetPrev
    (protocol.mkMessage name key [] protocol.NoExtra).

(** The test at the head of readRepair's loop, negated: the version has no
    data or its timestamp is not the winner's. *)
Definition needs_repair (winner : dversion) (ver : version) : bool :=
  match Data ver with
  | Some d =>
      negb (storage.Timestamp (ddata winner) =? storage.Timestamp d)
  | None => true
  end.

Definition is_local_put (e : event) : bool :=
  match e with
  | EvLocalPut _ _ => true
  | _ => false
  end.

(** A PUT-REPLICA or PUT-EX-REPLICA request. *)
Definition is_put_request (e : event) : bool :=
  is_request protocol.OpPutReplica e || is_request protocol.OpPutExReplica e.

(** A GET-PREV or GET-BACKUP request. *)
Definition is_lookup_request (e : event) : bool :=
  is_request protocol.OpGetPrev e || is_request protocol.OpGetBackup e.

(** The request read repair sends for the winner to a host that is not
    this node (lines 169-184 and 203): the opcode and the extra go by the
    winner's ttl. *)
Definition repairPut (name : string) (winner : dversion) (h : Member) : event :=
  if storage.TTL (ddata winner) =? 0 then
    EvRequest (Member_String h) protocol.OpPutReplica
      (repairRequest name winner
         (protocol.PutExtra (storage.Timestamp (ddata winner))))
  else
    EvRequest (Member_String h) protocol.OpPutExReplica
      (repairRequest name winner
         (protocol.PutExExtra (storage.Timestamp (ddata winner))
            (storage.TTL (ddata winner)))).

(** What read repair does on account of one version: nothing when the
    version is current, the local write under the write lock when its host
    is this node, one PUT to its host when it is not. *)
Definition repairEvents (name : string) (winner : dversion) (ver : version)
  : list event :=
  if needs_repair winner ver then
    if hostCmp (host ver) this then
      [EvLock;
       EvLocalPut (getHKey name (storage.Key (ddata winner)))
         (repairWrite name winner);
       EvUnlock]
    else [repairPut name winner (host ver)]
  else [].

(** The DMap after read repair has dealt with one version. *)
Definition repairDMap (name : string) (winner : dversion)
  (d : dmapState) (ver : version) : dmapState :=
  if needs_repair winner ver && hostCmp (host ver) this then
    localPut_fn (getHKey name (storage.Key (ddata winner)))
      (repairWrite name winner) d
  else d.

(** Where one event of read repair comes from: a lock event or a local
    write from a version in need of repair whose host is this node, a
    request from a version in need of repair whose host is another node,
    and then the request is the PUT of the winner to that host. *)
Definition repair_event (name : string) (winner : dversion)
  (versions : list version) (e : event) : Prop :=
  match e with
  | EvLock | EvUnlock =>
      exists ver, In ver versions /\ needs_repair winner ver = true /\
                  hostCmp (host ver) this = true
  | EvLocalPut hkey w =>
      hkey = getHKey name (storage.Key (ddata winner)) /\
      w = repairWrite name winner /\
      exists ver, In ver versions /\ needs_repair winner ver = true /\
                  hostCmp (host ver) this = true
  | EvRequest _ _ _ =>
      exists ver, In ver versions /\ needs_repair winner ver = true /\
                  hostCmp (host ver) this = false /\
                  e = repairPut name winner (host ver)
  | _ => False
  end.

End Reading.

(** ** A small cluster to run the code on

    Members are named by their address, the codec reads a payload as
    timestamp byte, ttl byte, value bytes, and the DMap is an association
    list for storage with the list of accesses made. *)

Record demoDMap := mkDemoDMap {
  demo_storage : list (N * VData);
  demo_accessLog : list N
}.

Fixpoint demo_lookup (st : list (N * VData)) (hkey : N) : option VData :=
  match st with
  | [] => None
  | (h, d) :: st' => if N.eqb h hkey then Some d else demo_lookup st' hkey
  end.

Definition demo_decode (payload : bytes) : option VData :=
  match payload with
  | ts :: ttl :: val =>
      Some (storage.mkVData "k"%string val (Z.of_N (Byte.to_N ts)) (Z.of_N (Byte.to_N ttl)))
  | _ => None
  end.

Definition demo_put (hkey : N) (w : writeop) (st : demoDMap) : demoDMap :=
  mkDemoDMap
    ((hkey, storage.mkVData (key w) (value w) (timestamp w) (timeout w))
       :: demo_storage st)
    (demo_accessLog st).

Definition demo_serializer (rawval : bytes) : result iface :=
  match rawval with
  | [] => Ok iface_empty_struct
  | _ => Ok (iface_other "[]byte"%string rawval)
  end.

Definition demoCluster (cfg : Config) (minReplicas : Z)
  (owners backups : list string)
  (net : string -> OpCode -> result Message)
  (nserr shared : bool) (tnow : Z) : Cluster :=
  {| Member := string;
     hostCmp := String.eqb;
     Member_String := fun m => m;
     this := "n0"%string;
     config := cfg;
     MinimumReplicaCount := minReplicas;
     dmapState := demoDMap;
     storage_Get := fun st hkey => demo_lookup (demo_storage st) hkey;
     isKeyIdle := fun _ _ => false;
     updateAccessLog_fn :=
       fun hkey st => mkDemoDMap (demo_storage st) (hkey :: demo_accessLog st);
     localPut_fn := demo_put;
     getDMap := fun _ _ => None;
     getHKey := fun _ _ => 7%N;
     findPartitionOwner := fun _ _ => ("n0"%string, 7%N);
     getPartitionOwners := fun _ => owners;
     getBackupPartitionOwners := fun _ => backups;
     respond := fun addr op _ => net addr op;
     decodeVData := demo_decode;
     nonsettable_err := fun _ => nserr;
     serializer_Unmarshal := demo_serializer;
     now := tnow;
     rangeVarShared := shared |}.

(** A peer [n1] that holds ("k", 0x02, t = 200) and a peer [n2] that holds
    ("k", 0x01, t = 100); any other address is unreachable. *)
Definition demo_net (addr : string) (op : OpCode) : result Message :=
  if String.eqb addr "n1" then
    Ok (protocol.mkMessage EmptyString EmptyString
          [Byte.xc8; Byte.x00; Byte.x02] protocol.NoExtra)
  else if String.eqb addr "n2" then
    Ok (protocol.mkMessage EmptyString EmptyString
          [Byte.x64; Byte.x00; Byte.x01] protocol.NoExtra)
  else Err (ErrOther "connection refused").

Definition demo_local : demoDMap :=
  mkDemoDMap [(7%N, storage.mkVData "k"%string [Byte.x01] 100 0)] [].

(** The node [n0] owns the partition after [n1]; [n2] is its backup.  The
    decoder rejects a destination that is not a pointer. *)
Definition demoA : Cluster :=
  demoCluster (mkConfig 1 2 true) 1 ["n1"; "n0"]%string ["n2"]%string
    demo_net true true 50.

(** No previous owner, three backups, three configured replicas, a minimum
    of two and a read quorum of one. *)
Definition demoB : Cluster :=
  demoCluster (mkConfig 1 3 true) 2 ["n0"]%string ["n1"; "n2"; "n3"]%string
    demo_net true true 50.

(** No previous owner, one backup, no configured replica, a minimum of one
    and a read quorum of one. *)
Definition demoC : Cluster :=
  demoCluster (mkConfig 1 0 true) 1 ["n0"]%string ["n2"]%string
    demo_net true true 50.

(** No previous owner, one backup, two configured replicas, a minimum of
    one and a read quorum of zero. *)
Definition demoF : Cluster :=
  demoCluster (mkConfig 0 2 true) 1 ["n0"]%string ["n2"]%string
    demo_net true true 50.

(** No previous owner, the backups [n2] and [n1] in this order, a read
    quorum of two; one variable for the whole range loop. *)
Definition demoE : Cluster :=
  demoCluster (mkConfig 2 3 true) 1 ["n0"]%string ["n2"; "n1"]%string
    demo_net true true 50.

(** A single node. *)
Definition demoD : Cluster :=
  demoCluster (mkConfig 1 1 true) 1 ["n0"]%string [] demo_net true true 50.

(** The local copy expired at 40. *)
Definition demo_expired : demoDMap :=
  mkDemoDMap [(7%N, storage.mkVData "k"%string [Byte.x01] 100 40)] [].

(** The local copy holds no bytes, which [demo_serializer] reads as the
    empty struct. *)
Definition demo_empty : demoDMap :=
  mkDemoDMap [(7%N, storage.mkVData "k"%string [] 100 0)] [].

Definition demo_request : Message :=
  protocol.mkMessage "d" "k" [] protocol.NoExtra.

(** Two versions of one key: the winner at [n0], and a copy at [n2] with the
    same timestamp and smaller value bytes. *)
Definition demo_winner : dversion (Cl := demoA) :=
  mkDversion (Cl := demoA) "n0"%string (storage.mkVData "k" [Byte.x02] 100 0).

Definition demo_loser : version (Cl := demoA) :=
  mkVersion (Cl := demoA) "n2"%string
    (Some (storage.mkVData "k" [Byte.x01] 100 0)).

Definition demo_local_version (Cl : Cluster) : version (Cl := Cl) :=
  mkVersion (Cl := Cl) this (Some (storage.mkVData "k" [Byte.x01] 100 0)).

(** The local copy is ("k", 0x03, t = 200): it ties with the copy of [n1]
    on the timestamp and wins on the value bytes. *)
Definition demo_tie : demoDMap :=
  mkDemoDMap [(7%N, storage.mkVData "k"%string [Byte.x03] 200 0)] [].

Definition demo_tie_winner : dversion (Cl := demoE) :=
  mkDversion (Cl := demoE) "n0"%string (storage.mkVData "k" [Byte.x03] 200 0).

(** Nobody holds the key: the DMap is empty and the backups [n3] and [n4] do
    not answer; the read quorum is two. *)
Definition demo_none : demoDMap := mkDemoDMap [] [].

Definition demoH : Cluster :=
  demoCluster (mkConfig 2 3 true) 1 ["n0"]%string ["n3"; "n4"]%string
    demo_net true true 50.

(** [demoE] with read repair switched off. *)
Definition demoG : Cluster :=
  demoCluster (mkConfig 2 3 false) 1 ["n0"]%string ["n2"; "n1"]%string
    demo_net true true 50.

(** A node [n0] for which the partition table names [n1] as the owner. *)
Definition demoRemote : Cluster :=
  {| Member := string;
     hostCmp := String.eqb;
     Member_String := fun m => m;
     this := "n0"%string;
     config := mkConfig 1 1 true;
     MinimumReplicaCount := 1;
     dmapState := demoDMap;
     storage_Get := fun st hkey => demo_lookup (demo_storage st) hkey;
     isKeyIdle := fun _ _ => false;
     updateAccessLog_fn :=
       fun hkey st => mkDemoDMap (demo_storage st) (hkey :: demo_accessLog st);
     localPut_fn := demo_put;
     getDMap := fun _ _ => None;
     getHKey := fun _ _ => 7%N;
     findPartitionOwner := fun _ _ => ("n1"%string, 7%N);
     getPartitionOwners := fun _ => ["n1"%string];
     getBackupPartitionOwners := fun _ => [];
     respond := fun addr op _ => demo_net addr op;
     decodeVData := demo_decode;
     nonsettable_err := fun _ => true;
     serializer_Unmarshal := demo_serializer;
     now := 50;
     rangeVarShared := true |}.

(** The encoder that goes with [demo_decode]: it encodes records of key "k"
    whose timestamp and ttl fit a byte. *)
Definition demo_encode (v : VData) : result bytes :=
  if String.eqb (storage.Key v) "k"
     && (0 <=? storage.Timestamp v) && (0 <=? storage.TTL v)
  then
    match Byte.of_N (Z.to_N (storage.Timestamp v)),
          Byte.of_N (Z.to_N (storage.TTL v)) with
    | Some ts, Some ttl => Ok (ts :: ttl :: storage.Value v)
    | _, _ => Err (ErrOther "does not fit")
    end
  else Err (ErrOther "does not fit").

Definition demoHandlers (Cl : Cluster) : Handlers (Cl := Cl) :=
  {| msgpack_Marshal := demo_encode;
     storage_Get_err := fun _ _ => ErrKeyNotFound;
     getBackupDMap := fun _ _ => None;
     partitionHasDMap := fun _ _ => true |}.

(** * Properties *)

(** ** [bytes.Compare] is a total order on byte slices *)

Lemma byte_to_N_inj (x y : Byte.byte) : Byte.to_N x = Byte.to_N y -> x = y.
Proof.
  intros H.
  pose proof (Byte.of_to_N x) as Hx.
  pose proof (Byte.of_to_N y) as Hy.
  rewrite H in Hx. congruence.
Qed.

Lemma bytes_Compare_antisym (a b : bytes) :
  bytes_Compare b a = - bytes_Compare a b.
Proof.
  revert b. induction a as [|x a IH]; intros [|y b]; simpl; auto.
  rewrite (N.compare_antisym (Byte.to_N x) (Byte.to_N y)).
  destruct (N.compare (Byte.to_N x) (Byte.to_N y)); simpl; auto.
Qed.

Lemma bytes_Compare_eq (a b : bytes) : bytes_Compare a b = 0 <-> a = b.
Proof.
  revert b. induction a as [|x a IH]; intros [|y b]; simpl;
    try (split; [discriminate | discriminate]); try tauto.
  destruct (N.compare_spec (Byte.to_N x) (Byte.to_N y)) as [E|L|G].
  - apply byte_to_N_inj in E. subst y. rewrite IH.
    split; [intros ->; reflexivity | intros H; injection H; auto].
  - split; [discriminate | intros H; injection H; intros _ ->; lia].
  - split; [discriminate | intros H; injection H; intros _ ->; lia].
Qed.

Lemma bytes_Compare_trans (a b c : bytes) :
  bytes_Compare a b >= 0 -> bytes_Compare b c >= 0 -> bytes_Compare a c >= 0.
Proof.
  revert b c. induction a as [|x a IH]; intros [|y b] [|z c]; simpl; try lia.
  destruct (N.compare_spec (Byte.to_N x) (Byte.to_N y)) as [E1|L1|G1];
    destruct (N.compare_spec (Byte.to_N y) (Byte.to_N z)) as [E2|L2|G2];
    destruct (N.compare_spec (Byte.to_N x) (Byte.to_N z)) as [E3|L3|G3];
    try lia; intros; eauto.
Qed.

(** ** The comparator is a total, transitive, reflexive order on [vkey] *)

Lemma less_true_iff (di dj : VData) :
  less di dj = true <->
  storage.Timestamp dj < storage.Timestamp di \/
  (storage.Timestamp di = storage.Timestamp dj /\
   bytes_Compare (storage.Value di) (storage.Value dj) >= 0).
Proof.
  unfold less.
  destruct (Z.eqb_spec (storage.Timestamp di) (storage.Timestamp dj)) as [E|NE].
  - rewrite Z.geb_leb, Z.leb_le. split; [intros; right; split; lia | lia].
  - rewrite Z.gtb_ltb, Z.ltb_lt. split; [auto | intros [H|[H _]]; [auto | contradiction]].
Qed.

Lemma less_total (di dj : VData) : less di dj = true \/ less dj di = true.
Proof.
  rewrite !less_true_iff.
  pose proof (bytes_Compare_antisym (storage.Value di) (storage.Value dj)).
  destruct (Z.lt_trichotomy (storage.Timestamp di) (storage.Timestamp dj))
    as [L|[E|G]]; [right; left; lia | | left; left; lia].
  destruct (Z_le_gt_dec 0 (bytes_Compare (storage.Value di) (storage.Value dj)));
    [left | right]; right; split; lia.
Qed.

Lemma less_trans (d1 d2 d3 : VData) :
  less d1 d2 = true -> less d2 d3 = true -> less d1 d3 = true.
Proof.
  rewrite !less_true_iff.
  intros [L1|[E1 C1]] [L2|[E2 C2]]; try (left; lia).
  right. split; [lia | eapply bytes_Compare_trans; eassumption].
Qed.

Lemma less_antisym (d1 d2 : VData) :
  less d1 d2 = true -> less d2 d1 = true -> vkey d1 = vkey d2.
Proof.
  rewrite !less_true_iff. unfold vkey.
  intros [L1|[E1 C1]] [L2|[E2 C2]]; try lia.
  pose proof (bytes_Compare_antisym (storage.Value d1) (storage.Value d2)) as A.
  assert (Z0 : bytes_Compare (storage.Value d1) (storage.Value d2) = 0) by lia.
  apply bytes_Compare_eq in Z0. congruence.
Qed.

Lemma less_vkey (d1 d2 d1' d2' : VData) :
  vkey d1 = vkey d1' -> vkey d2 = vkey d2' -> less d1 d2 = less d1' d2'.
Proof.
  unfold vkey, less. intros H1 H2.
  injection H1 as -> ->. injection H2 as -> ->. reflexivity.
Qed.

(** ** Insertion sort with a total, transitive comparator *)

Section SortFacts.

Context {A : Type}.
Variable lt : A -> A -> bool.
Hypothesis lt_total : forall x y, lt x y = true \/ lt y x = true.
Hypothesis lt_trans : forall x y z, lt x y = true -> lt y z = true -> lt x z = true.

Lemma sift_perm (x : A) (rp : list A) : Permutation (x :: rp) (sift lt x rp).
Proof.
  induction rp as [|y rp IH]; simpl; [reflexivity|].
  destruct (lt x y); [|reflexivity].
  rewrite perm_swap. constructor. exact IH.
Qed.

Lemma fold_sift_perm (l acc : list A) :
  Permutation (rev l ++ acc) (fold_left (fun rp x => sift lt x rp) l acc).
Proof.
  revert acc. induction l as [|x l IH]; intros acc; simpl; [reflexivity|].
  rewrite <- IH, <- app_assoc. simpl.
  apply Permutation_app_head, sift_perm.
Qed.

Lemma insertionSort_perm (l : list A) : Permutation l (insertionSort lt l).
Proof.
  unfold insertionSort.
  rewrite <- Permutation_rev, <- fold_sift_perm, app_nil_r.
  apply Permutation_rev.
Qed.

Lemma sift_ordered (x : A) (rp : list A) :
  ordered_from_right lt rp -> ordered_from_right lt (sift lt x rp).
Proof.
  unfold ordered_from_right.
  induction rp as [|y rp IH]; intros S; simpl.
  - repeat constructor.
  - inversion S as [|? ? S' F]; subst.
    destruct (lt x y) eqn:E.
    + constructor; [auto|].
      rewrite <- (sift_perm x rp). constructor; assumption.
    + assert (Hyx : lt y x = true) by (destruct (lt_total x y); congruence).
      constructor; [assumption|].
      constructor; [assumption|].
      rewrite Forall_forall in *. intros z Hz. eauto.
Qed.

Lemma fold_sift_ordered (l acc : list A) :
  ordered_from_right lt acc ->
  ordered_from_right lt (fold_left (fun rp x => sift lt x rp) l acc).
Proof.
  revert acc. induction l as [|x l IH]; intros acc S; simpl; [exact S|].
  apply IH, sift_ordered, S.
Qed.

Lemma sorted_snoc (R : A -> A -> Prop) (l : list A) (y : A) :
  StronglySorted R l -> Forall (fun z => R z y) l ->
  StronglySorted R (l ++ [y]).
Proof.
  induction l as [|z l IH]; intros S F; simpl.
  - repeat constructor.
  - inversion S as [|? ? S' Fz]; subst.
    inversion F as [|? ? Rzy F']; subst.
    constructor; [auto|].
    apply Forall_app. split; [assumption | repeat constructor; assumption].
Qed.

Lemma ordered_rev (rp : list A) :
  ordered_from_right lt rp ->
  StronglySorted (fun y z => lt y z = true) (rev rp).
Proof.
  unfold ordered_from_right.
  induction rp as [|y rp IH]; intros S; simpl; [constructor|].
  inversion S as [|? ? S' F]; subst.
  apply sorted_snoc; [auto|].
  rewrite Forall_forall in *. intros z Hz. apply F, in_rev, Hz.
Qed.

Lemma insertionSort_sorted (l : list A) :
  StronglySorted (fun y z => lt y z = true) (insertionSort lt l).
Proof.
  unfold insertionSort. apply ordered_rev, fold_sift_ordered. constructor.
Qed.

(** Whatever routine put the slice in order: the head of a permutation of
    [l] that is in comparator order is at or before every element of [l]. *)
Lemma sorted_permutation_head (l l' : list A) (w : A) (rest : list A) :
  Permutation l l' ->
  StronglySorted (fun y z => lt y z = true) l' ->
  l' = w :: rest ->
  In w l /\ forall z, In z l -> lt w z = true.
Proof.
  intros P S E. subst l'.
  split.
  - apply (Permutation_in w (Permutation_sym P)). left. reflexivity.
  - intros z Hz. apply (Permutation_in z P) in Hz.
    destruct Hz as [<-|Hz].
    + destruct (lt_total w w); assumption.
    + inversion S as [|? ? _ F]; subst.
      rewrite Forall_forall in F. auto.
Qed.

(** The first element of the sorted slice is at or before every element of
    the input. *)
Lemma sort_Slice_head (l : list A) (w : A) (rest : list A) :
  sort_Slice lt l = w :: rest ->
  In w l /\ forall z, In z l -> lt w z = true.
Proof.
  unfold sort_Slice. intros E.
  apply (sorted_permutation_head l (insertionSort lt l) w rest).
  - apply insertionSort_perm.
  - apply insertionSort_sorted.
  - exact E.
Qed.

Lemma sort_Slice_length (l : list A) :
  List.length (sort_Slice lt l) = List.length l.
Proof.
  symmetry. apply Permutation_length, insertionSort_perm.
Qed.

End SortFacts.

Section Proofs.

Context {Cl : Cluster}.

(** ** Running the monad *)

Lemma run_bind {A B : Type} (c : M A) (k : A -> M B) (s : state) :
  (x <- c ;; k x) s
  = match c s with
    | Done a s' => k a s'
    | Panic msg => Panic msg
    end.
Proof. reflexivity. Qed.

Lemma run_emit {B : Type} (e : event) (k : M B) (s : state) :
  (emit e ;; k) s = k (mkState (dmst s) (trace s ++ [e])).
Proof. reflexivity. Qed.

Lemma run_requestTo {B : Type} (addr : string) (op : OpCode) (req : Message)
  (k : result Message -> M B) (s : state) :
  (resp <- requestTo addr op req ;; k resp) s
  = k (respond addr op req) (mkState (dmst s) (trace s ++ [EvRequest addr op req])).
Proof. reflexivity. Qed.

Lemma run_updateAccessLog {B : Type} (hkey : N) (k : M B) (s : state) :
  (updateAccessLog hkey ;; k) s
  = k (mkState (updateAccessLog_fn hkey (dmst s))
         (trace s ++ [EvUpdateAccessLog hkey])).
Proof. reflexivity. Qed.

Lemma run_read_dm {B : Type} (k : dmapState -> M B) (s : state) :
  (dm <- read_dm ;; k dm) s = k (dmst s) s.
Proof. reflexivity. Qed.

(** ** The winner *)

Lemma sanitize_to_version (l : list dversion) :
  sanitize (map to_version l) = l.
Proof.
  induction l as [|[h d] l IH]; simpl; [reflexivity|].
  rewrite IH. reflexivity.
Qed.

Lemma sanitize_length (versions : list version) :
  List.length (sanitize versions) = List.length (filter has_data versions).
Proof.
  induction versions as [|[h [d|]] versions IH]; simpl; auto.
Qed.

Lemma sanitizeAndSortVersions_length (versions : list version) :
  List.length (sanitizeAndSortVersions versions) = List.length (sanitize versions).
Proof.
  unfold sanitizeAndSortVersions, sortVersions.
  destruct (List.length (sanitize versions) <=? 1)%nat; [reflexivity|].
  apply sort_Slice_length.
Qed.

Lemma sanitize_all_nil (versions : list version) :
  Forall (fun ver => Data ver = None) versions -> sanitize versions = [].
Proof.
  induction 1 as [|[h d] l E F IH]; simpl in *; [reflexivity|].
  rewrite E. exact IH.
Qed.

(** The head of the sanitised, sorted slice compares at-or-before every
    data-bearing version. *)
Lemma sorted_head_dominates (versions : list version) (w : dversion)
  (rest : list dversion) :
  sanitizeAndSortVersions versions = w :: rest ->
  In w (sanitize versions) /\
  forall u, In u (sanitize versions) -> less (ddata w) (ddata u) = true.
Proof.
  unfold sanitizeAndSortVersions, sortVersions.
  destruct (Nat.leb_spec (List.length (sanitize versions)) 1) as [Hle|Hgt].
  - intros E. rewrite E in *. destruct rest; [|simpl in Hle; lia].
    split; [left; reflexivity|].
    intros u [<-|[]]. destruct (less_total (ddata w) (ddata w)); assumption.
  - apply sort_Slice_head.
    + intros x y. apply less_total.
    + intros x y z. apply less_trans.
Qed.

Lemma sorted_nonempty (versions : list version) :
  sanitize versions <> [] ->
  exists w rest, sanitizeAndSortVersions versions = w :: rest.
Proof.
  intros NE.
  pose proof (sanitizeAndSortVersions_length versions) as L.
  destruct (sanitizeAndSortVersions versions) as [|w rest]; [|eauto].
  destruct (sanitize versions); [congruence | discriminate].
Qed.

(** C2.  For every non-empty list of versions with data, the head of the
    sanitised and sorted slice is one of them, no version has a larger
    timestamp, among the versions with the winner's timestamp none has
    lexicographically greater value bytes, and any other list with the same
    multiset of (timestamp, value) pairs yields a winner with the same
    pair.  The pair does not depend on the sorting routine: the head of any
    permutation of the versions that is in comparator order has it. *)
Theorem winner_maximises_timestamp_then_value
  (d : dversion) (ds : list dversion) :
  exists w rest,
    sanitizeAndSortVersions (map to_version (d :: ds)) = w :: rest /\
    In w (d :: ds) /\
    (forall u, In u (d :: ds) ->
       storage.Timestamp (ddata u) <= storage.Timestamp (ddata w)) /\
    (forall u, In u (d :: ds) ->
       storage.Timestamp (ddata u) = storage.Timestamp (ddata w) ->
       bytes_Compare (storage.Value (ddata w)) (storage.Value (ddata u)) >= 0) /\
    (forall d' ds',
       Permutation (map (fun u => vkey (ddata u)) (d :: ds))
                   (map (fun u => vkey (ddata u)) (d' :: ds')) ->
       exists w' rest',
         sanitizeAndSortVersions (map to_version (d' :: ds')) = w' :: rest' /\
         vkey (ddata w') = vkey (ddata w)) /\
    (forall sorted w' rest',
       Permutation (d :: ds) sorted ->
       StronglySorted (fun y z => less (ddata y) (ddata z) = true) sorted ->
       sorted = w' :: rest' ->
       vkey (ddata w') = vkey (ddata w)).
Proof.
  assert (W : forall l, l <> [] ->
            exists w rest,
              sanitizeAndSortVersions (map to_version l) = w :: rest /\
              In w l /\ forall u, In u l -> less (ddata w) (ddata u) = true).
  { intros l NE.
    destruct (sorted_nonempty (map to_version l)) as (w & rest & E).
    - rewrite sanitize_to_version. exact NE.
    - exists w, rest. split; [exact E|].
      apply sorted_head_dominates in E.
      rewrite sanitize_to_version in E. exact E. }
  destruct (W (d :: ds)) as (w & rest & E & Hin & Hmax); [discriminate|].
  exists w, rest. repeat split; try assumption.
  - intros u Hu. apply Hmax, less_true_iff in Hu. lia.
  - intros u Hu Ets. apply Hmax, less_true_iff in Hu. lia.
  - intros d' ds' P.
    destruct (W (d' :: ds')) as (w' & rest' & E' & Hin' & Hmax'); [discriminate|].
    exists w', rest'. split; [exact E'|].
    assert (K : In (vkey (ddata w')) (map (fun u => vkey (ddata u)) (d :: ds))).
    { apply (Permutation_in _ (Permutation_sym P)).
      apply (in_map (fun u => vkey (ddata u))), Hin'. }
    assert (K' : In (vkey (ddata w)) (map (fun u => vkey (ddata u)) (d' :: ds'))).
    { apply (Permutation_in _ P).
      apply (in_map (fun u => vkey (ddata u))), Hin. }
    apply in_map_iff in K. destruct K as (z & Kz & Hz).
    apply in_map_iff in K'. destruct K' as (z' & Kz' & Hz').
    apply less_antisym.
    + rewrite (less_vkey _ _ (ddata w') (ddata z') eq_refl (eq_sym Kz')).
      apply Hmax', Hz'.
    + rewrite (less_vkey _ _ (ddata w) (ddata z) eq_refl (eq_sym Kz)).
      apply Hmax, Hz.
  - intros sorted w' rest' P S E'.
    destruct (sorted_permutation_head
                (fun y z => less (ddata y) (ddata z))
                (fun x y => less_total (ddata x) (ddata y))
                (d :: ds) sorted w' rest' P S E') as (Hin' & Hmax').
    apply less_antisym; [apply Hmax', Hin | apply Hmax, Hin'].
Qed.

(** ** The reconciler's errors *)

Lemma reconcileAndReply_all_nil (hkey : N) (name : string)
  (versions : list version) (s : state) :
  ReadQuorum config <= Z.of_nat (List.length versions) ->
  Forall (fun ver => Data ver = None) versions ->
  reconcileAndReply hkey name versions s
  = Done (Err ErrKeyNotFound) (unlocked s).
Proof.
  intros Met AllNil. unfold reconcileAndReply, sanitizeAndSortVersions.
  apply Z.ltb_ge in Met. rewrite Met.
  rewrite (sanitize_all_nil versions AllNil). reflexivity.
Qed.

(** C1.  The code after the lookups returns its errors in this order: too
    few collected versions (nil data included) gives ErrReadQuorum; else an
    empty sanitised slice gives ErrKeyNotFound; else a sanitised slice
    shorter than the quorum gives ErrReadQuorum.  With the quorum met and
    only nil-data versions the result is ErrKeyNotFound.  The sanitised
    slice has one entry per version with data. *)
Theorem reconcile_error_priority
  (hkey : N) (name : string) (versions : list version) (s : state) :
  List.length (sanitizeAndSortVersions versions)
    = List.length (filter has_data versions) /\
  (Z.of_nat (List.length versions) < ReadQuorum config ->
   reconcileAndReply hkey name versions s
     = Done (Err ErrReadQuorum) (unlocked s)) /\
  (ReadQuorum config <= Z.of_nat (List.length versions) ->
   sanitizeAndSortVersions versions = [] ->
   reconcileAndReply hkey name versions s
     = Done (Err ErrKeyNotFound) (unlocked s)) /\
  (ReadQuorum config <= Z.of_nat (List.length versions) ->
   sanitizeAndSortVersions versions <> [] ->
   Z.of_nat (List.length (sanitizeAndSortVersions versions)) < ReadQuorum config ->
   reconcileAndReply hkey name versions s
     = Done (Err ErrReadQuorum) (unlocked s)) /\
  (ReadQuorum config <= Z.of_nat (List.length versions) ->
   Forall (fun ver => Data ver = None) versions ->
   reconcileAndReply hkey name versions s
     = Done (Err ErrKeyNotFound) (unlocked s)).
Proof.
  split; [rewrite sanitizeAndSortVersions_length; apply sanitize_length|].
  split; [|split; [|split]].
  - intros Short. unfold reconcileAndReply.
    apply Z.ltb_lt in Short. rewrite Short. reflexivity.
  - intros Met E. unfold reconcileAndReply.
    apply Z.ltb_ge in Met. rewrite Met, E. reflexivity.
  - intros Met NE Few. unfold reconcileAndReply.
    apply Z.ltb_ge in Met. rewrite Met.
    destruct (sanitizeAndSortVersions versions) as [|winner rest] eqn:E;
      [congruence|].
    apply Z.ltb_lt in Few. rewrite Few. reflexivity.
  - intros Met AllNil. apply reconcileAndReply_all_nil; assumption.
Qed.

(** ** lookupOnReplicas *)

Lemma replicasLoop_run (backups rest : list Member) (name key : string)
  (versions : list version) (s : state) :
  replicasLoop backups rest name key versions s
  = Done
      (versions ++
       map (fun b => mkVersion (replicaCell backups b) (backupData name key b)) rest)
      (mkState (dmst s) (trace s ++ map (backupRequest name key) rest)).
Proof.
  revert versions s.
  induction rest as [|b rest IH]; intros versions s; simpl.
  - unfold ret. rewrite !app_nil_r. destruct s; reflexivity.
  - rewrite run_requestTo, IH. simpl. rewrite <- !app_assoc. simpl.
    f_equal. f_equal. f_equal. f_equal.
    unfold backupData, msgpack_Unmarshal.
    destruct (respond _ _ _) as [resp|e]; [|reflexivity].
    destruct (decodeVData _); reflexivity.
Qed.

(** C4.  lookupOnReplicas sends one GET-BACKUP per backup, in the order of
    the backup list, and returns one version per backup in that order; the
    version's data is the decoded payload when the call succeeds and the
    payload decodes, and nil otherwise.  The DMap is not written. *)
Theorem lookupOnReplicas_one_version_per_backup
  (hkey : N) (name key : string) (s : state) :
  exists versions,
    lookupOnReplicas hkey name key s
    = Done versions
        (mkState (dmst s)
           (trace s ++
            map (backupRequest name key) (getBackupPartitionOwners hkey))) /\
    List.length versions = List.length (getBackupPartitionOwners hkey) /\
    map Data versions
    = map (backupData name key) (getBackupPartitionOwners hkey) /\
    (rangeVarShared = false ->
     map host versions = getBackupPartitionOwners hkey).
Proof.
  unfold lookupOnReplicas. rewrite replicasLoop_run. simpl.
  eexists. split; [reflexivity|].
  split; [apply length_map|].
  split.
  - rewrite map_map. reflexivity.
  - intros Fresh. rewrite map_map. simpl. unfold replicaCell. rewrite Fresh.
    apply map_id.
Qed.

(** ** lookupOnOwners *)

Lemma prevOwnersLoop_run (owners : list Member) (name key : string) (n : nat) :
  (n <= List.length owners)%nat ->
  forall (versions : list version) (s : state),
  exists appended t,
    prevOwnersLoop owners name key n versions s
    = Done (versions ++ appended) (mkState (dmst s) (trace s ++ t)) /\
    Forall (fun e => is_request protocol.OpGetPrev e = true) t /\
    Forall (fun ver => Data ver = Some storage.zero) appended /\
    ((forall payload, nonsettable_err payload = true) -> appended = []).
Proof.
  induction n as [|i IH]; intros Hn versions s; simpl.
  - exists [], []. rewrite !app_nil_r. destruct s. repeat split; auto.
  - destruct (nth_error owners i) as [owner|] eqn:E.
    2:{ apply nth_error_None in E. lia. }
    rewrite run_requestTo.
    assert (Hi : (i <= List.length owners)%nat) by lia.
    set (rq := EvRequest _ _ _).
    set (s1 := mkState (dmst s) _).
    assert (Q : is_request protocol.OpGetPrev rq = true) by reflexivity.
    destruct (respond _ _ _) as [resp|e].
    + destruct (nonsettable_err (protocol.Value resp)) eqn:NS.
      * destruct (IH Hi versions s1) as (appended & t & R & T & F & A).
        exists appended, (rq :: t). rewrite R. simpl.
        rewrite <- !app_assoc. auto.
      * destruct (IH Hi (versions ++ [mkVersion owner (Some storage.zero)]) s1)
          as (appended & t & R & T & F & A).
        exists (mkVersion owner (Some storage.zero) :: appended), (rq :: t).
        rewrite R. simpl. rewrite <- !app_assoc. simpl.
        repeat split; auto.
        intros All. rewrite All in NS. discriminate.
    + destruct (IH Hi versions s1) as (appended & t & R & T & F & A).
      exists appended, (rq :: t). rewrite R. simpl.
      rewrite <- !app_assoc. auto.
Qed.

Lemma lookupOnOwners_run (hkey : N) (name key : string) (s : state) :
  getPartitionOwners hkey <> [] ->
  exists appended t,
    lookupOnOwners hkey name key s
    = Done (mkVersion this (storage_Get (dmst s) hkey) :: appended)
        (mkState (dmst s) (trace s ++ t)) /\
    Forall (fun e => is_request protocol.OpGetPrev e = true) t /\
    Forall (fun ver => Data ver = Some storage.zero) appended /\
    ((forall payload, nonsettable_err payload = true) -> appended = []).
Proof.
  intros NE. unfold lookupOnOwners. rewrite run_read_dm.
  destruct (getPartitionOwners hkey) as [|o owners] eqn:E; [congruence|].
  simpl Nat.eqb. cbv iota.
  apply (prevOwnersLoop_run (o :: owners) name key
           (List.length (o :: owners) - 1) ltac:(lia)
           [mkVersion this (storage_Get (dmst s) hkey)] s).
Qed.

Lemma lookupOnOwners_panics (hkey : N) (name key : string) (s : state) :
  getPartitionOwners hkey = [] ->
  lookupOnOwners hkey name key s
  = Panic "partition owners list cannot be empty".
Proof.
  intros E. unfold lookupOnOwners. rewrite run_read_dm, E. reflexivity.
Qed.

(** C3, as the code has it.  Whatever a previous owner answers,
    lookupOnOwners never returns its decoded payload: [data] is handed to
    msgpack.Unmarshal by value, so the version appended for a previous owner,
    if any, carries the zero VData; and when the decoder rejects a
    destination that is not a pointer, no previous owner's version is
    appended at all. *)
Theorem lookupOnOwners_prev_owner_payload_lost
  (hkey : N) (name key : string) (s : state)
  (versions : list version) (s' : state) :
  lookupOnOwners hkey name key s = Done versions s' ->
  exists appended,
    versions = mkVersion this (storage_Get (dmst s) hkey) :: appended /\
    Forall (fun ver => Data ver = Some storage.zero) appended /\
    ((forall payload, nonsettable_err payload = true) -> appended = []).
Proof.
  intros R.
  destruct (getPartitionOwners hkey) as [|o owners] eqn:E.
  - rewrite lookupOnOwners_panics in R by exact E. discriminate.
  - destruct (lookupOnOwners_run hkey name key s) as (appended & t & R1 & _ & F & A).
    { rewrite E. discriminate. }
    rewrite R1 in R. injection R as <- _.
    exists appended. auto.
Qed.

(** ** readRepair *)

Lemma readRepair_cons (name : string) (winner : dversion) (ver : version)
  (rest : list version) (s : state) :
  readRepair name winner (ver :: rest) s
  = (readRepair name winner [ver] ;; readRepair name winner rest) s.
Proof.
  simpl.
  destruct (match Data ver with Some d => _ | None => false end);
    [reflexivity|].
  destruct (storage.TTL (ddata winner) =? 0);
    destruct (hostCmp (host ver) this); reflexivity.
Qed.

Lemma readRepair_total (name : string) (winner : dversion)
  (versions : list version) (s : state) :
  exists s', readRepair name winner versions s = Done tt s'.
Proof.
  revert s. induction versions as [|ver rest IH]; intros s.
  - exists s. reflexivity.
  - simpl.
    destruct (match Data ver with Some d => _ | None => false end);
      [apply IH|].
    destruct (storage.TTL (ddata winner) =? 0);
      destruct (hostCmp (host ver) this); apply IH.
Qed.

Lemma readRepair_app (name : string) (winner : dversion)
  (l1 l2 : list version) (s : state) :
  readRepair name winner (l1 ++ l2) s
  = (readRepair name winner l1 ;; readRepair name winner l2) s.
Proof.
  revert s. induction l1 as [|ver l1 IH]; intros s; [reflexivity|].
  simpl app.
  destruct (readRepair_total name winner [ver] s) as (s1 & E1).
  rewrite readRepair_cons, run_bind, E1, IH.
  rewrite (run_bind (readRepair name winner (ver :: l1))).
  rewrite readRepair_cons, (run_bind (readRepair name winner [ver])), E1.
  reflexivity.
Qed.

Lemma readRepair_skip (name : string) (winner : dversion) (ver : version)
  (d : VData) (s : state) :
  Data ver = Some d ->
  storage.Timestamp d = storage.Timestamp (ddata winner) ->
  readRepair name winner [ver] s = Done tt s.
Proof.
  intros E T. simpl. rewrite E, T, Z.eqb_refl. reflexivity.
Qed.

Lemma trace_grows (s : state) (d : dmapState) (t : list event) :
  t <> [] -> mkState d (trace s ++ t) <> s.
Proof.
  intros NE E. apply NE.
  apply (f_equal trace) in E. simpl in E.
  apply (app_inv_head (trace s)). rewrite app_nil_r. exact E.
Qed.

Lemma readRepair_one (name : string) (winner : dversion) (ver : version)
  (s : state) :
  readRepair name winner [ver] s
  = Done tt
      (mkState (repairDMap name winner (dmst s) ver)
         (trace s ++ repairEvents name winner ver)).
Proof.
  unfold repairDMap, repairEvents, repairPut, needs_repair. simpl.
  destruct (Data ver) as [d|].
  - destruct (storage.Timestamp (ddata winner) =? storage.Timestamp d); simpl.
    + rewrite app_nil_r. destruct s; reflexivity.
    + destruct (hostCmp (host ver) this);
        destruct (storage.TTL (ddata winner) =? 0); simpl;
        unfold bind, emit, localPut, modify_dm, ret, requestTo; simpl;
        rewrite <- ?app_assoc; reflexivity.
  - destruct (hostCmp (host ver) this);
      destruct (storage.TTL (ddata winner) =? 0); simpl;
      unfold bind, emit, localPut, modify_dm, ret, requestTo; simpl;
      rewrite <- ?app_assoc; reflexivity.
Qed.

(** The whole loop in closed form. *)
Lemma readRepair_run (name : string) (winner : dversion)
  (versions : list version) (s : state) :
  readRepair name winner versions s
  = Done tt
      (mkState (fold_left (repairDMap name winner) versions (dmst s))
         (trace s ++ flat_map (repairEvents name winner) versions)).
Proof.
  revert s. induction versions as [|ver rest IH]; intros s.
  - simpl. rewrite app_nil_r. destruct s; reflexivity.
  - rewrite readRepair_cons, run_bind, readRepair_one, IH.
    simpl. rewrite <- app_assoc. reflexivity.
Qed.

Lemma repairEvents_reach (name : string) (winner : dversion)
  (versions : list version) (ver : version) :
  In ver versions ->
  needs_repair winner ver = true ->
  hostCmp (host ver) this = false ->
  exists t1 t2,
    flat_map (repairEvents name winner) versions
    = t1 ++ repairPut name winner (host ver) :: t2.
Proof.
  intros Hin NR HC.
  apply in_split in Hin. destruct Hin as (l1 & l2 & ->).
  rewrite flat_map_app. simpl.
  exists (flat_map (repairEvents name winner) l1),
         (flat_map (repairEvents name winner) l2).
  unfold repairEvents at 2. rewrite NR, HC. reflexivity.
Qed.

Lemma replicaCell_shared (front : list Member) (final b : Member) :
  rangeVarShared = true -> replicaCell (front ++ [final]) b = final.
Proof.
  intros Shared. unfold replicaCell. rewrite Shared. apply last_last.
Qed.

(** C5.  Read repair treats the versions one after the other.  For one
    version it writes nothing if and only if the version has data whose
    timestamp is the winner's.  Otherwise, when the version's host is this
    node, it takes the write lock, runs the local write path with the
    winner's key, value, timestamp and ttl, and unlocks; when the host is
    another node, it sends PUT-REPLICA with the winner's timestamp if the
    winner's ttl is 0, and PUT-EX-REPLICA with the winner's timestamp and
    ttl if not. *)
Theorem readRepair_writes (name : string) (winner : dversion) :
  (forall l1 l2 s,
     readRepair name winner (l1 ++ l2) s
     = (readRepair name winner l1 ;; readRepair name winner l2) s) /\
  (forall ver s,
     readRepair name winner [ver] s = Done tt s <->
     exists d, Data ver = Some d /\
               storage.Timestamp d = storage.Timestamp (ddata winner)) /\
  (forall ver s,
     ~ (exists d, Data ver = Some d /\
                  storage.Timestamp d = storage.Timestamp (ddata winner)) ->
     hostCmp (host ver) this = true ->
     readRepair name winner [ver] s
     = Done tt
         (mkState
            (localPut_fn (getHKey name (storage.Key (ddata winner)))
               (repairWrite name winner) (dmst s))
            (trace s ++
             [EvLock;
              EvLocalPut (getHKey name (storage.Key (ddata winner)))
                (repairWrite name winner);
              EvUnlock]))) /\
  (forall ver s,
     ~ (exists d, Data ver = Some d /\
                  storage.Timestamp d = storage.Timestamp (ddata winner)) ->
     hostCmp (host ver) this = false ->
     readRepair name winner [ver] s
     = Done tt
         (mkState (dmst s)
            (trace s ++
             [if storage.TTL (ddata winner) =? 0 then
                EvRequest (Member_String (host ver)) protocol.OpPutReplica
                  (repairRequest name winner
                     (protocol.PutExtra (storage.Timestamp (ddata winner))))
              else
                EvRequest (Member_String (host ver)) protocol.OpPutExReplica
                  (repairRequest name winner
                     (protocol.PutExExtra (storage.Timestamp (ddata winner))
                        (storage.TTL (ddata winner))))]))).
Proof.
  assert (Stale : forall ver,
            ~ (exists d, Data ver = Some d /\
                         storage.Timestamp d = storage.Timestamp (ddata winner)) ->
            match Data ver with
            | Some d => storage.Timestamp (ddata winner) =? storage.Timestamp d
            | None => false
            end = false).
  { intros ver NC. destruct (Data ver) as [d|]; [|reflexivity].
    apply Z.eqb_neq. intros E. apply NC. exists d. auto. }
  split; [apply readRepair_app|].
  split; [|split].
  - intros ver s. split.
    + intros R.
      destruct (Data ver) as [d|] eqn:E.
      * destruct (Z.eqb_spec (storage.Timestamp (ddata winner)) (storage.Timestamp d))
          as [T|NT]; [exists d; auto|].
        exfalso. simpl in R. rewrite E in R.
        apply Z.eqb_neq in NT. rewrite NT in R.
        destruct (storage.TTL (ddata winner) =? 0);
          destruct (hostCmp (host ver) this);
          injection R as R; revert R; simpl;
          try (apply trace_grows; discriminate);
          rewrite <- !app_assoc; apply trace_grows; discriminate.
      * exfalso. simpl in R. rewrite E in R.
        destruct (storage.TTL (ddata winner) =? 0);
          destruct (hostCmp (host ver) this);
          injection R as R; revert R; simpl;
          try (apply trace_grows; discriminate);
          rewrite <- !app_assoc; apply trace_grows; discriminate.
    + intros (d & E & T). eapply readRepair_skip; eassumption.
  - intros ver s NC Local. simpl. rewrite (Stale ver NC), Local.
    destruct (storage.TTL (ddata winner) =? 0); simpl;
      unfold bind, emit, localPut, modify_dm, ret; simpl;
      rewrite <- !app_assoc; reflexivity.
  - intros ver s NC Remote. simpl. rewrite (Stale ver NC), Remote.
    destruct (storage.TTL (ddata winner) =? 0); reflexivity.
Qed.

(** On account of a version that has data with the winner's timestamp,
    whatever its value bytes, read repair writes nothing: it runs as if the
    version were not in the list. *)
Lemma readRepair_ignores_current_version
  (name : string) (winner : dversion) (l1 l2 : list version)
  (ver : version) (d : VData) (s : state) :
  Data ver = Some d ->
  storage.Timestamp d = storage.Timestamp (ddata winner) ->
  readRepair name winner [ver] s = Done tt s /\
  readRepair name winner (l1 ++ ver :: l2) s
  = readRepair name winner (l1 ++ l2) s.
Proof.
  intros E T.
  split; [eapply readRepair_skip; eassumption|].
  rewrite !readRepair_app, !run_bind.
  destruct (readRepair_total name winner l1 s) as (s1 & ->).
  rewrite readRepair_cons, run_bind.
  rewrite (readRepair_skip name winner ver d s1 E T). reflexivity.
Qed.

(** C9.  The skip test of read repair is on the version, not on its host.
    With one variable for the whole range loop of lookupOnReplicas, every
    replica version records the last backup as its host.  So when the last
    backup answers with the winner's timestamp and other value bytes, and
    another backup's answer is missing or has another timestamp, the
    version of the last backup is skipped, and yet read repair sends the
    PUT of the winner to the last backup, the host of the tie-broken
    loser, on account of the other backup's version. *)
Theorem readRepair_writes_to_host_of_tie_broken_loser
  (hkey : N) (name key : string) (winner : dversion)
  (front : list Member) (stale final : Member) (d : VData)
  (pre : list version) (s : state) :
  rangeVarShared = true ->
  getBackupPartitionOwners hkey = front ++ [final] ->
  In stale front ->
  needs_repair winner (mkVersion stale (backupData name key stale)) = true ->
  backupData name key final = Some d ->
  storage.Timestamp d = storage.Timestamp (ddata winner) ->
  storage.Value d <> storage.Value (ddata winner) ->
  hostCmp final this = false ->
  exists versions s1,
    lookupOnReplicas hkey name key s = Done versions s1 /\
    In (mkVersion final (Some d)) versions /\
    (forall s0,
       readRepair name winner [mkVersion final (Some d)] s0 = Done tt s0) /\
    (forall s0,
       exists s2 t1 t2,
         readRepair name winner (pre ++ versions) s0 = Done tt s2 /\
         trace s2 = trace s0 ++ t1 ++ repairPut name winner final :: t2).
Proof.
  intros Shared B Hin NR Dl T _ HC.
  unfold lookupOnReplicas. rewrite replicasLoop_run, B.
  eexists. eexists. split; [reflexivity|].
  split; [|split].
  - rewrite app_nil_l. apply in_map_iff. exists final.
    rewrite (replicaCell_shared _ _ _ Shared), Dl.
    split; [reflexivity | apply in_or_app; right; left; reflexivity].
  - intros s0. apply (readRepair_skip name winner _ d); [reflexivity | exact T].
  - intros s0. rewrite readRepair_run, app_nil_l.
    destruct (repairEvents_reach name winner
                (pre ++
                 map (fun b =>
                        mkVersion (replicaCell (front ++ [final]) b)
                          (backupData name key b))
                   (front ++ [final]))
                (mkVersion final (backupData name key stale)))
      as (t1 & t2 & E).
    + apply in_or_app. right. apply in_map_iff. exists stale.
      rewrite (replicaCell_shared _ _ _ Shared).
      split; [reflexivity | apply in_or_app; left; exact Hin].
    + exact NR.
    + exact HC.
    + eexists. exists t1, t2. split; [reflexivity|].
      cbn [trace]. rewrite E. reflexivity.
Qed.

(** ** Counting events *)

Lemma count_updates_app (t1 t2 : list event) :
  count_updates (t1 ++ t2) = (count_updates t1 + count_updates t2)%nat.
Proof. unfold count_updates. rewrite filter_app, length_app. reflexivity. Qed.

Lemma count_requests_app (op : OpCode) (t1 t2 : list event) :
  count_requests op (t1 ++ t2)
  = (count_requests op t1 + count_requests op t2)%nat.
Proof. unfold count_requests. rewrite filter_app, length_app. reflexivity. Qed.

Lemma requests_no_updates (op : OpCode) (t : list event) :
  Forall (fun e => is_request op e = true) t -> count_updates t = 0%nat.
Proof.
  unfold count_updates.
  induction 1 as [|e t He _ IH]; [reflexivity|].
  destruct e; try discriminate. simpl. exact IH.
Qed.

Lemma prev_requests_no_backup (t : list event) :
  Forall (fun e => is_request protocol.OpGetPrev e = true) t ->
  count_requests protocol.OpGetBackup t = 0%nat.
Proof.
  unfold count_requests.
  induction 1 as [|e t He _ IH]; [reflexivity|].
  destruct e as [| | | |addr op req| |]; try discriminate.
  destruct op; try discriminate. simpl. exact IH.
Qed.

Lemma backupRequests_count (name key : string) (l : list Member) :
  count_requests protocol.OpGetBackup (map (backupRequest name key) l)
  = List.length l /\
  count_updates (map (backupRequest name key) l) = 0%nat.
Proof.
  unfold count_requests, count_updates.
  induction l as [|b l [IH1 IH2]]; simpl; auto.
Qed.

(** ** collectVersions *)

Lemma collectVersions_run (hkey : N) (name key : string) (s : state) :
  getPartitionOwners hkey <> [] ->
  exists appended t,
    collectVersions hkey name key s
    = Done
        ((mkVersion this (storage_Get (dmst s) hkey) :: appended) ++
         (if ReadQuorum config >=? MinimumReplicaCount then
            map (fun b =>
                   mkVersion (replicaCell (getBackupPartitionOwners hkey) b)
                     (backupData name key b))
              (getBackupPartitionOwners hkey)
          else []))
        (mkState (dmst s)
           (trace s ++ t ++
            (if ReadQuorum config >=? MinimumReplicaCount then
               map (backupRequest name key) (getBackupPartitionOwners hkey)
             else []))) /\
    Forall (fun e => is_request protocol.OpGetPrev e = true) t /\
    Forall (fun ver => Data ver = Some storage.zero) appended.
Proof.
  intros NE.
  destruct (lookupOnOwners_run hkey name key s NE) as (appended & t & R & T & F & _).
  exists appended, t. split; [|auto].
  unfold collectVersions. rewrite run_bind, R.
  destruct (ReadQuorum config >=? MinimumReplicaCount).
  - rewrite run_bind. unfold lookupOnReplicas. rewrite replicasLoop_run.
    simpl. rewrite <- app_assoc. reflexivity.
  - unfold ret. rewrite !app_nil_r. reflexivity.
Qed.

(** ** reconcileAndReply *)

Lemma readRepair_quiet (name : string) (winner : dversion)
  (versions : list version) (s : state) :
  exists d t,
    readRepair name winner versions s = Done tt (mkState d (trace s ++ t)) /\
    count_updates t = 0%nat.
Proof.
  revert s. induction versions as [|ver rest IH]; intros s.
  - exists (dmst s), []. rewrite app_nil_r. destruct s. auto.
  - simpl.
    destruct (match Data ver with Some d => _ | None => false end); [apply IH|].
    destruct (storage.TTL (ddata winner) =? 0);
      destruct (hostCmp (host ver) this);
      rewrite run_bind; simpl;
      match goal with
      | |- context [readRepair name winner rest ?s1] =>
          destruct (IH s1) as (d & t & R & C); rewrite R; simpl;
          rewrite <- ?app_assoc; simpl;
          eexists; eexists; split; [reflexivity|];
          rewrite ?count_updates_app; simpl; exact C
      end.
Qed.

Lemma reconcileAndReply_outcome (hkey : N) (name : string)
  (versions : list version) (s : state) :
  (exists e,
     reconcileAndReply hkey name versions s = Done (Err e) (unlocked s) /\
     (e = ErrReadQuorum \/ e = ErrKeyNotFound)) \/
  (exists winner rest d t,
     sanitizeAndSortVersions versions = winner :: rest /\
     isKeyExpired (storage.TTL (ddata winner)) = false /\
     isKeyIdle (dmst s) hkey = false /\
     reconcileAndReply hkey name versions s
     = Done (Ok (storage.Value (ddata winner)))
         (mkState d (trace s ++ [EvUpdateAccessLog hkey; EvRUnlock] ++ t)) /\
     count_updates t = 0%nat).
Proof.
  unfold reconcileAndReply.
  destruct (Z.of_nat (List.length versions) <? ReadQuorum config);
    [left; eexists; split; [reflexivity | auto]|].
  destruct (sanitizeAndSortVersions versions) as [|winner rest] eqn:E;
    [left; eexists; split; [reflexivity | auto]|].
  destruct (Z.of_nat (List.length (winner :: rest)) <? ReadQuorum config);
    [left; eexists; split; [reflexivity | auto]|].
  rewrite run_read_dm.
  destruct (isKeyExpired (storage.TTL (ddata winner))) eqn:X;
    [left; eexists; split; [reflexivity | auto]|].
  destruct (isKeyIdle (dmst s) hkey) eqn:I;
    [left; eexists; split; [reflexivity | auto]|].
  right. cbn [orb].
  destruct (ReadRepair config) eqn:RR.
  - destruct (readRepair_quiet name winner versions
                (mkState (updateAccessLog_fn hkey (dmst s))
                   ((trace s ++ [EvUpdateAccessLog hkey]) ++ [EvRUnlock])))
      as (d & t & R & C).
    exists winner, rest, d, t. repeat split; auto.
    rewrite run_updateAccessLog, run_emit, run_bind. simpl. rewrite R.
    simpl. rewrite <- !app_assoc. reflexivity.
  - exists winner, rest, (updateAccessLog_fn hkey (dmst s)), [].
    repeat split; auto.
    rewrite run_updateAccessLog, run_emit, run_bind. simpl. unfold ret.
    rewrite <- !app_assoc. reflexivity.
Qed.

(** ** callGetOnCluster *)

Lemma callGetOnCluster_run (hkey : N) (name key : string) (s : state) :
  getDMap name hkey = None ->
  callGetOnCluster hkey name key s
  = match collectVersions hkey name key
            (mkState (dmst s) (trace s ++ [EvRLock])) with
    | Done versions s1 => reconcileAndReply hkey name versions s1
    | Panic msg => Panic msg
    end.
Proof.
  intros G. unfold callGetOnCluster. rewrite G, run_emit, run_bind. reflexivity.
Qed.

(** C6.  When the lookups have met the quorum and the winner's ttl is not 0
    and not after now, or the key is idle, callGetOnCluster releases the
    read lock and returns ErrKeyNotFound; a version set that meets the
    quorum with nil data only gives the same result from the same state. *)
Theorem expired_or_idle_winner_reads_as_absent
  (hkey : N) (name key : string) (s : state)
  (versions : list version) (s1 : state)
  (winner : dversion) (rest : list dversion) :
  getDMap name hkey = None ->
  collectVersions hkey name key (mkState (dmst s) (trace s ++ [EvRLock]))
    = Done versions s1 ->
  ReadQuorum config <= Z.of_nat (List.length versions) ->
  sanitizeAndSortVersions versions = winner :: rest ->
  ReadQuorum config <= Z.of_nat (List.length (winner :: rest)) ->
  (storage.TTL (ddata winner) <> 0 /\ storage.TTL (ddata winner) <= now) \/
  isKeyIdle (dmst s1) hkey = true ->
  callGetOnCluster hkey name key s = Done (Err ErrKeyNotFound) (unlocked s1) /\
  (forall absent,
     Forall (fun ver => Data ver = None) absent ->
     ReadQuorum config <= Z.of_nat (List.length absent) ->
     reconcileAndReply hkey name absent s1
     = Done (Err ErrKeyNotFound) (unlocked s1)).
Proof.
  intros G C Met E Met' Gone.
  split.
  - rewrite (callGetOnCluster_run _ _ _ _ G), C.
    unfold reconcileAndReply.
    apply Z.ltb_ge in Met. rewrite Met, E.
    apply Z.ltb_ge in Met'. rewrite Met'.
    rewrite run_read_dm.
    assert (B : isKeyExpired (storage.TTL (ddata winner))
                || isKeyIdle (dmst s1) hkey = true).
    { apply orb_true_iff. destruct Gone as [[NZ Past]|Idle]; [left | right; exact Idle].
      unfold isKeyExpired. apply andb_true_iff. split.
      - apply negb_true_iff, Z.eqb_neq, NZ.
      - apply Z.leb_le, Past. }
    rewrite B. reflexivity.
  - intros absent AllNil MetA.
    apply reconcileAndReply_all_nil; assumption.
Qed.

(** C7.  In every run of callGetOnCluster that returns, updateAccessLog is
    called once when a value is returned and not at all when an error is
    returned, and on an error the DMap (storage and access log) is as it
    was before the call. *)
Theorem access_log_updated_only_on_success
  (hkey : N) (name key : string) (s : state)
  (r : result bytes) (s' : state) :
  callGetOnCluster hkey name key s = Done r s' ->
  exists t,
    trace s' = trace s ++ t /\
    count_updates t = (if is_ok r then 1 else 0)%nat /\
    (is_ok r = true -> In (EvUpdateAccessLog hkey) t) /\
    (is_ok r = false -> dmst s' = dmst s).
Proof.
  destruct (getDMap name hkey) as [err|] eqn:G.
  - unfold callGetOnCluster. rewrite G. intros R. injection R as <- <-.
    exists []. rewrite app_nil_r. repeat split; auto. discriminate.
  - rewrite (callGetOnCluster_run _ _ _ _ G).
    destruct (getPartitionOwners hkey) as [|o owners] eqn:O.
    + unfold collectVersions. rewrite run_bind, lookupOnOwners_panics by exact O.
      discriminate.
    + destruct (collectVersions_run hkey name key
                  (mkState (dmst s) (trace s ++ [EvRLock])))
        as (appended & t & C & T & _).
      { rewrite O. discriminate. }
      rewrite C. clear C. simpl dmst. simpl trace.
      set (tb := if ReadQuorum config >=? MinimumReplicaCount
                 then map (backupRequest name key) _ else _).
      assert (Tb : count_updates tb = 0%nat).
      { subst tb. destruct (ReadQuorum config >=? MinimumReplicaCount);
          [apply backupRequests_count | reflexivity]. }
      pose proof (requests_no_updates _ _ T) as Tt.
      match goal with
      | |- reconcileAndReply hkey name ?vs ?s1 = _ -> _ =>
          destruct (reconcileAndReply_outcome hkey name vs s1)
            as [(e & R & _)|(winner & rest & d & tr & _ & _ & _ & R & Tr)];
          rewrite R; clear R
      end.
      * intros R. injection R as <- <-.
        exists ([EvRLock] ++ (t ++ tb) ++ [EvRUnlock]).
        unfold unlocked. simpl trace. simpl dmst.
        split; [rewrite <- !app_assoc; reflexivity|].
        split; [|split; [discriminate | reflexivity]].
        rewrite !count_updates_app, Tt, Tb. reflexivity.
      * intros R. injection R as <- <-.
        exists ([EvRLock] ++ (t ++ tb) ++ [EvUpdateAccessLog hkey; EvRUnlock] ++ tr).
        simpl trace.
        split; [rewrite <- !app_assoc; reflexivity|].
        split; [|split; [|discriminate]].
        -- rewrite !count_updates_app, Tt, Tb, Tr. reflexivity.
        -- intros _. rewrite !in_app_iff. right. right. left. left. reflexivity.
Qed.

(** C8, as the code has it.  The replicas are consulted exactly when the
    configured read quorum is at least MinimumReplicaCount: then one
    GET-BACKUP goes to every backup and the answers follow the owners'
    versions in the version set; otherwise no GET-BACKUP is sent and the
    version set is that of lookupOnOwners.  The configured replica count is
    not looked at. *)
Theorem replicas_consulted_iff_read_quorum_reaches_minimum
  (hkey : N) (name key : string) (s : state)
  (versions : list version) (s' : state) :
  collectVersions hkey name key s = Done versions s' ->
  exists own s1 t,
    lookupOnOwners hkey name key s = Done own s1 /\
    versions
    = own ++
      (if MinimumReplicaCount <=? ReadQuorum config then
         map (fun b =>
                mkVersion (replicaCell (getBackupPartitionOwners hkey) b)
                  (backupData name key b))
           (getBackupPartitionOwners hkey)
       else []) /\
    trace s' = trace s ++ t /\
    count_requests protocol.OpGetBackup t
    = (if MinimumReplicaCount <=? ReadQuorum config then
         List.length (getBackupPartitionOwners hkey)
       else 0%nat).
Proof.
  destruct (getPartitionOwners hkey) as [|o owners] eqn:O.
  - unfold collectVersions. rewrite run_bind, lookupOnOwners_panics by exact O.
    discriminate.
  - assert (NE : getPartitionOwners hkey <> []) by (rewrite O; discriminate).
    destruct (lookupOnOwners_run hkey name key s NE) as (appended & t & L & T & _).
    unfold collectVersions. rewrite run_bind, L, <- Z.geb_leb.
    destruct (ReadQuorum config >=? MinimumReplicaCount).
    + rewrite run_bind. unfold lookupOnReplicas. rewrite replicasLoop_run.
      simpl. intros R. injection R as <- <-.
      eexists; eexists.
      exists (t ++ map (backupRequest name key) (getBackupPartitionOwners hkey)).
      split; [reflexivity|]. split; [reflexivity|].
      split; [simpl; rewrite <- app_assoc; reflexivity|].
      rewrite count_requests_app, (prev_requests_no_backup _ T).
      apply backupRequests_count.
    + unfold ret. intros R. injection R as <- <-.
      eexists; eexists. exists t.
      split; [reflexivity|]. split; [rewrite app_nil_r; reflexivity|].
      split; [reflexivity|].
      apply (prev_requests_no_backup _ T).
Qed.

(** ** Get *)

(** C10.  When the raw bytes that [get] returns deserialise to the empty
    struct value, [Get] returns a nil value and a nil error. *)
Theorem Get_returns_nil_for_empty_struct
  (name key : string) (s : state) (rawval : bytes) (s' : state) :
  get name key s = Done (Ok rawval) s' ->
  serializer_Unmarshal rawval = Ok iface_empty_struct ->
  DMap_Get name key s = Done (Ok iface_nil) s'.
Proof.
  intros G U. unfold DMap_Get. rewrite run_bind, G.
  unfold ret, unmarshalValue. rewrite U. reflexivity.
Qed.

(** ** Further properties of the read path *)

Lemma repairEvents_one_host (name key : string) (winner : dversion)
  (h : Member) (l : list Member) :
  hostCmp h this = false ->
  flat_map (repairEvents name winner)
    (map (fun b => mkVersion h (backupData name key b)) l)
  = repeat (repairPut name winner h)
      (List.length
         (filter
            (fun b => needs_repair winner (mkVersion b (backupData name key b)))
            l)) /\
  forall d,
    fold_left (repairDMap name winner)
      (map (fun b => mkVersion h (backupData name key b)) l) d = d.
Proof.
  intros HC. induction l as [|b l (IH1 & IH2)]; [split; reflexivity|].
  simpl. rewrite IH1.
  unfold repairEvents at 1, repairDMap at 2, needs_repair. simpl.
  rewrite HC, andb_false_r.
  split; [|exact IH2].
  destruct (backupData name key b) as [v|]; [|reflexivity].
  destruct (storage.Timestamp (ddata winner) =? storage.Timestamp v);
    reflexivity.
Qed.

(** X1.  With one variable for the whole range loop, every version that
    lookupOnReplicas returns records the last backup as its host.  Read
    repair over these versions then sends all its PUTs to the last backup,
    one for every backup whose answer is missing or has another timestamp
    than the winner, whether the last backup's own answer is current or
    not, and sends nothing to any other backup. *)
Theorem read_repair_writes_only_to_last_backup
  (hkey : N) (name key : string) (winner : dversion)
  (front : list Member) (final : Member) (s : state) :
  rangeVarShared = true ->
  getBackupPartitionOwners hkey = front ++ [final] ->
  hostCmp final this = false ->
  exists versions s1,
    lookupOnReplicas hkey name key s = Done versions s1 /\
    Forall (fun ver => host ver = final) versions /\
    forall s0,
      readRepair name winner versions s0
      = Done tt
          (mkState (dmst s0)
             (trace s0 ++
              repeat (repairPut name winner final)
                (List.length
                   (filter
                      (fun b =>
                         needs_repair winner
                           (mkVersion b (backupData name key b)))
                      (front ++ [final]))))).
Proof.
  intros Shared B HC.
  unfold lookupOnReplicas. rewrite replicasLoop_run, B, app_nil_l.
  assert (E : map (fun b =>
                     mkVersion (replicaCell (front ++ [final]) b)
                       (backupData name key b))
                (front ++ [final])
              = map (fun b => mkVersion final (backupData name key b))
                  (front ++ [final])).
  { apply map_ext. intros b.
    rewrite (replicaCell_shared _ _ _ Shared). reflexivity. }
  rewrite E.
  eexists. eexists. split; [reflexivity|]. split.
  - apply Forall_forall. intros ver Hin.
    apply in_map_iff in Hin. destruct Hin as (b & <- & _). reflexivity.
  - intros s0. rewrite readRepair_run.
    destruct (repairEvents_one_host name key winner final (front ++ [final]) HC)
      as (Ev & Dm).
    rewrite Ev, Dm. reflexivity.
Qed.

(** X2.  When every collected version has data with the winner's timestamp,
    read repair writes nothing and sends nothing. *)
Theorem readRepair_silent_when_consistent
  (name : string) (winner : dversion) (versions : list version) (s : state) :
  Forall (fun ver => exists d, Data ver = Some d /\
            storage.Timestamp d = storage.Timestamp (ddata winner)) versions ->
  readRepair name winner versions s = Done tt s.
Proof.
  induction 1 as [|ver rest (d & E & T) _ IH]; [reflexivity|].
  rewrite readRepair_cons, run_bind.
  rewrite (readRepair_skip name winner ver d s E T). exact IH.
Qed.

Lemma readRepair_no_read_lock (name : string) (winner : dversion)
  (versions : list version) (s : state) :
  exists d t,
    readRepair name winner versions s = Done tt (mkState d (trace s ++ t)) /\
    Forall (fun e => is_read_lock e = false) t.
Proof.
  revert s. induction versions as [|ver rest IH]; intros s.
  - exists (dmst s), []. rewrite app_nil_r. destruct s. auto.
  - simpl.
    destruct (match Data ver with Some d => _ | None => false end); [apply IH|].
    destruct (storage.TTL (ddata winner) =? 0);
      destruct (hostCmp (host ver) this);
      rewrite run_bind; simpl;
      match goal with
      | |- context [readRepair name winner rest ?s1] =>
          destruct (IH s1) as (d & t & R & C); rewrite R; simpl;
          rewrite <- ?app_assoc; simpl;
          eexists; eexists; split; [reflexivity|];
          repeat (constructor; [reflexivity|]); exact C
      end.
Qed.

(** X3.  Every run of callGetOnCluster that gets its DMap and returns takes
    the read lock first and releases it once; between the two there are
    only requests and the access-log update, and the write lock is taken
    only after the release. *)
Theorem read_lock_released_before_repair
  (hkey : N) (name key : string) (s : state)
  (r : result bytes) (s' : state) :
  getDMap name hkey = None ->
  callGetOnCluster hkey name key s = Done r s' ->
  exists t1 t2,
    trace s' = trace s ++ [EvRLock] ++ t1 ++ [EvRUnlock] ++ t2 /\
    Forall (fun e => is_read_lock e = false /\ is_write_lock e = false) t1 /\
    Forall (fun e => is_read_lock e = false) t2.
Proof.
  intros G. rewrite (callGetOnCluster_run _ _ _ _ G).
  destruct (getPartitionOwners hkey) as [|o owners] eqn:O.
  - unfold collectVersions. rewrite run_bind, lookupOnOwners_panics by exact O.
    discriminate.
  - destruct (collectVersions_run hkey name key
                (mkState (dmst s) (trace s ++ [EvRLock])))
      as (appended & t & C & T & _).
    { rewrite O. discriminate. }
    rewrite C. clear C. simpl dmst. simpl trace.
    set (tb := if ReadQuorum config >=? MinimumReplicaCount
               then map (backupRequest name key) _ else _).
    assert (Tq : Forall (fun e => is_read_lock e = false /\ is_write_lock e = false)
                   (t ++ tb)).
    { apply Forall_app. split.
      - eapply Forall_impl; [|exact T]. intros e He.
        destruct e; try discriminate. auto.
      - subst tb. destruct (ReadQuorum config >=? MinimumReplicaCount);
          [|constructor].
        apply Forall_forall. intros e He. apply in_map_iff in He.
        destruct He as (b & <- & _). auto. }
    unfold reconcileAndReply.
    destruct (Z.of_nat _ <? ReadQuorum config).
    { intros R. injection R as _ <-. exists (t ++ tb), [].
      simpl. rewrite <- !app_assoc. auto. }
    destruct (sanitizeAndSortVersions _) as [|winner rest].
    { intros R. injection R as _ <-. exists (t ++ tb), [].
      simpl. rewrite <- !app_assoc. auto. }
    destruct (Z.of_nat _ <? ReadQuorum config).
    { intros R. injection R as _ <-. exists (t ++ tb), [].
      simpl. rewrite <- !app_assoc. auto. }
    rewrite run_read_dm.
    destruct (isKeyExpired _ || isKeyIdle _ _).
    { intros R. injection R as _ <-. exists (t ++ tb), [].
      simpl. rewrite <- !app_assoc. auto. }
    rewrite run_updateAccessLog, run_emit, run_bind.
    destruct (ReadRepair config).
    + match goal with
      | |- context [readRepair name winner ?vs ?s1] =>
          destruct (readRepair_no_read_lock name winner vs s1) as (d & tr & R & Q)
      end.
      rewrite R. intros R'. injection R' as _ <-.
      exists ((t ++ tb) ++ [EvUpdateAccessLog hkey]), tr.
      simpl. rewrite <- !app_assoc. simpl.
      split; [reflexivity|]. split; [|exact Q].
      rewrite app_assoc. apply Forall_app. split; [exact Tq|].
      constructor; [auto | constructor].
    + intros R. injection R as _ <-.
      exists ((t ++ tb) ++ [EvUpdateAccessLog hkey]), [].
      simpl. rewrite <- !app_assoc. simpl.
      split; [reflexivity|]. split; [|constructor].
      rewrite app_assoc. apply Forall_app. split; [exact Tq|].
      constructor; [auto | constructor].
Qed.

End Proofs.

(** * The rest of the read path *)

Section ReadPath.

Context {Cl : Cluster}.

(** ** lookupOnOwners: who is asked *)

Lemma firstn_snoc_nth {A : Type} (l : list A) (i : nat) (x : A) :
  nth_error l i = Some x -> firstn (S i) l = firstn i l ++ [x].
Proof.
  revert i. induction l as [|y l IH]; intros [|i] E; simpl in *;
    try discriminate.
  - injection E as ->. reflexivity.
  - rewrite (IH i E). reflexivity.
Qed.

Lemma prevOwnersLoop_requests (owners : list Member) (name key : string)
  (n : nat) :
  (n <= List.length owners)%nat ->
  forall (versions : list version) (s : state),
  exists appended,
    prevOwnersLoop owners name key n versions s
    = Done (versions ++ appended)
        (mkState (dmst s)
           (trace s ++ map (prevRequest name key) (rev (firstn n owners)))) /\
    Forall (fun ver => In (host ver) (firstn n owners)) appended /\
    (List.length appended <= n)%nat.
Proof.
  induction n as [|i IH]; intros Hn versions s.
  - exists []. simpl. rewrite !app_nil_r. destruct s. auto.
  - simpl prevOwnersLoop.
    destruct (nth_error owners i) as [owner|] eqn:E.
    2:{ apply nth_error_None in E. lia. }
    rewrite run_requestTo.
    assert (Hi : (i <= List.length owners)%nat) by lia.
    rewrite (firstn_snoc_nth owners i owner E), rev_app_distr. simpl rev.
    simpl app. simpl map.
    set (s1 := mkState (dmst s) _).
    assert (Grow : forall appended,
              Forall (fun ver => In (host ver) (firstn i owners)) appended ->
              Forall (fun ver => In (host ver) (firstn i owners ++ [owner]))
                appended).
    { intros appended F. eapply Forall_impl; [|exact F].
      intros ver H. apply in_or_app. left. exact H. }
    assert (Tr : forall l, trace s1 ++ l
                           = trace s ++ prevRequest name key owner :: l).
    { intros l. subst s1. simpl. rewrite <- app_assoc. reflexivity. }
    destruct (respond _ _ _) as [resp|e].
    + simpl. destruct (nonsettable_err (protocol.Value resp)).
      * destruct (IH Hi versions s1) as (appended & R & F & L).
        exists appended. rewrite R, Tr. auto.
      * destruct (IH Hi (versions ++ [mkVersion owner (Some storage.zero)]) s1)
          as (appended & R & F & L).
        exists (mkVersion owner (Some storage.zero) :: appended).
        rewrite R, Tr, <- app_assoc. simpl.
        split; [reflexivity|]. split; [|lia].
        constructor; [|auto].
        simpl. apply in_or_app. right. left. reflexivity.
    + destruct (IH Hi versions s1) as (appended & R & F & L).
      exists appended. rewrite R, Tr. auto.
Qed.

(** X4.  lookupOnOwners panics when the owners list is empty.  Otherwise it
    returns, its first version is this node's with what local storage
    holds, it sends one GET-PREV to every owner before the last, from the
    second to last back to the first, and none to the last; the versions it
    appends are hosted by owners before the last, at most one each; the
    DMap is not written. *)
Theorem lookupOnOwners_asks_previous_owners_newest_first
  (hkey : N) (name key : string) (s : state) :
  (getPartitionOwners hkey = [] ->
   lookupOnOwners hkey name key s
   = Panic "partition owners list cannot be empty") /\
  (getPartitionOwners hkey <> [] ->
   exists appended,
     lookupOnOwners hkey name key s
     = Done (mkVersion this (storage_Get (dmst s) hkey) :: appended)
         (mkState (dmst s)
            (trace s ++
             map (prevRequest name key)
               (rev (removelast (getPartitionOwners hkey))))) /\
     Forall (fun ver => In (host ver) (removelast (getPartitionOwners hkey)))
       appended /\
     (List.length appended < List.length (getPartitionOwners hkey))%nat).
Proof.
  split.
  - intros E. unfold lookupOnOwners. rewrite run_read_dm, E. reflexivity.
  - intros NE. unfold lookupOnOwners. rewrite run_read_dm.
    destruct (getPartitionOwners hkey) as [|o owners] eqn:E; [congruence|].
    destruct (prevOwnersLoop_requests (o :: owners) name key
                (List.length (o :: owners) - 1) ltac:(lia)
                [mkVersion this (storage_Get (dmst s) hkey)] s)
      as (appended & R & F & L).
    rewrite (removelast_firstn_len (o :: owners)).
    replace (pred (List.length (o :: owners)))
      with (List.length (o :: owners) - 1)%nat by lia.
    exists appended.
    change ((List.length (o :: owners) =? 0)%nat) with false. cbv iota.
    rewrite R. split; [reflexivity|].
    split; [exact F | simpl in *; lia].
Qed.

(** ** callGetOnCluster: what a reply means *)

Lemma sanitize_In (versions : list version) (w : dversion) :
  In w (sanitize versions) <-> In (to_version w) versions.
Proof.
  induction versions as [|[h [d|]] versions IH]; simpl; [tauto| |].
  - rewrite IH. destruct w as [wh wd]. unfold to_version. simpl.
    split; (intros [E|H]; [left; congruence | right; exact H]).
  - rewrite IH. destruct w as [wh wd]. unfold to_version. simpl.
    split; [auto | intros [E|H]; [discriminate | exact H]].
Qed.

Lemma reconcileAndReply_ok (hkey : N) (name : string)
  (versions : list version) (s : state) (v : bytes) (s' : state) :
  reconcileAndReply hkey name versions s = Done (Ok v) s' ->
  exists winner rest,
    sanitizeAndSortVersions versions = winner :: rest /\
    v = storage.Value (ddata winner) /\
    ReadQuorum config <= Z.of_nat (List.length versions) /\
    ReadQuorum config <= Z.of_nat (List.length (winner :: rest)) /\
    isKeyExpired (storage.TTL (ddata winner)) = false /\
    isKeyIdle (dmst s) hkey = false.
Proof.
  unfold reconcileAndReply.
  destruct (Z.ltb_spec (Z.of_nat (List.length versions)) (ReadQuorum config));
    [discriminate|].
  destruct (sanitizeAndSortVersions versions) as [|winner rest];
    [discriminate|].
  destruct (Z.ltb_spec (Z.of_nat (List.length (winner :: rest)))
              (ReadQuorum config)); [discriminate|].
  rewrite run_read_dm.
  destruct (isKeyExpired (storage.TTL (ddata winner))) eqn:X; [discriminate|].
  destruct (isKeyIdle (dmst s) hkey) eqn:I; [discriminate|].
  cbn [orb]. rewrite run_updateAccessLog, run_emit, run_bind.
  intros R. exists winner, rest.
  destruct (ReadRepair config).
  - match type of R with
    | context [readRepair name winner versions ?s1] =>
        destruct (readRepair_total name winner versions s1) as (s2 & E)
    end.
    rewrite E in R. injection R as <- _. repeat split; auto.
  - injection R as <- _. repeat split; auto.
Qed.

Lemma callGetOnCluster_needs_DMap (hkey : N) (name key : string) (s : state)
  (r : result bytes) (s' : state) (err : error) :
  getDMap name hkey = Some err ->
  callGetOnCluster hkey name key s = Done r s' ->
  r = Err err /\ s' = s.
Proof.
  intros G. unfold callGetOnCluster. rewrite G.
  intros R. injection R as <- <-. auto.
Qed.

(** X5.  When callGetOnCluster returns a value, the value is that of a
    collected version with data; no collected version has a later
    timestamp, and none with the same timestamp has greater value bytes;
    that version is not expired and the key is not idle; and at least
    ReadQuorum of the collected versions have data. *)
Theorem callGetOnCluster_returns_newest_live_value
  (hkey : N) (name key : string) (s : state) (v : bytes) (s' : state) :
  callGetOnCluster hkey name key s = Done (Ok v) s' ->
  exists versions s1 winner,
    collectVersions hkey name key (mkState (dmst s) (trace s ++ [EvRLock]))
    = Done versions s1 /\
    In (to_version winner) versions /\
    v = storage.Value (ddata winner) /\
    (forall ver d,
       In ver versions -> Data ver = Some d ->
       storage.Timestamp d <= storage.Timestamp (ddata winner) /\
       (storage.Timestamp d = storage.Timestamp (ddata winner) ->
        bytes_Compare (storage.Value (ddata winner)) (storage.Value d) >= 0)) /\
    isKeyExpired (storage.TTL (ddata winner)) = false /\
    isKeyIdle (dmst s) hkey = false /\
    ReadQuorum config <= Z.of_nat (List.length (filter has_data versions)).
Proof.
  intros R.
  destruct (getDMap name hkey) as [err|] eqn:G.
  { destruct (callGetOnCluster_needs_DMap _ _ _ _ _ _ _ G R). discriminate. }
  rewrite (callGetOnCluster_run _ _ _ _ G) in R.
  destruct (getPartitionOwners hkey) as [|o owners] eqn:O.
  { unfold collectVersions in R.
    rewrite run_bind, lookupOnOwners_panics in R by exact O. discriminate. }
  destruct (collectVersions_run hkey name key
              (mkState (dmst s) (trace s ++ [EvRLock])))
    as (appended & t & C & _).
  { rewrite O. discriminate. }
  rewrite C in R.
  apply reconcileAndReply_ok in R.
  destruct R as (winner & rest & E & -> & Met & Met' & X & I).
  eexists. eexists. exists winner.
  split; [exact C|].
  destruct (sorted_head_dominates _ _ _ E) as (Hin & Hmax).
  split; [apply sanitize_In, Hin|].
  split; [reflexivity|].
  split.
  - intros ver d Hver Hd.
    assert (Hu : In (mkDversion (host ver) d) (sanitize
              ((mkVersion this (storage_Get (dmst s) hkey) :: appended) ++
               (if ReadQuorum config >=? MinimumReplicaCount
                then map (fun b =>
                            mkVersion
                              (replicaCell (getBackupPartitionOwners hkey) b)
                              (backupData name key b))
                       (getBackupPartitionOwners hkey)
                else [])))).
    { apply sanitize_In. unfold to_version. simpl.
      destruct ver as [h dd]. simpl in *. subst dd. exact Hver. }
    apply Hmax, less_true_iff in Hu. simpl in Hu. lia.
  - split; [exact X|]. split; [exact I|].
    rewrite <- sanitize_length, <- sanitizeAndSortVersions_length, E.
    exact Met'.
Qed.

(** X6.  callGetOnCluster returns three kinds of errors only.  The error of
    getDMap comes back as it is, before anything is done.  Every other
    error is ErrReadQuorum or ErrKeyNotFound, and then the run took the read
    lock, sent nothing but GET-PREV and GET-BACKUP requests, released the
    lock, and left the DMap as it was. *)
Theorem callGetOnCluster_errors
  (hkey : N) (name key : string) (s : state) (e : error) (s' : state) :
  callGetOnCluster hkey name key s = Done (Err e) s' ->
  (getDMap name hkey = Some e /\ s' = s) \/
  (getDMap name hkey = None /\
   (e = ErrReadQuorum \/ e = ErrKeyNotFound) /\
   dmst s' = dmst s /\
   exists t,
     trace s' = trace s ++ [EvRLock] ++ t ++ [EvRUnlock] /\
     Forall (fun ev => is_lookup_request ev = true) t).
Proof.
  intros R.
  destruct (getDMap name hkey) as [err|] eqn:G.
  { left. destruct (callGetOnCluster_needs_DMap _ _ _ _ _ _ _ G R) as [E ->].
    injection E as ->. auto. }
  right. split; [reflexivity|].
  rewrite (callGetOnCluster_run _ _ _ _ G) in R.
  destruct (getPartitionOwners hkey) as [|o owners] eqn:O.
  { unfold collectVersions in R.
    rewrite run_bind, lookupOnOwners_panics in R by exact O. discriminate. }
  destruct (collectVersions_run hkey name key
              (mkState (dmst s) (trace s ++ [EvRLock])))
    as (appended & t & C & T & _).
  { rewrite O. discriminate. }
  rewrite C in R. clear C. simpl dmst in R. simpl trace in R.
  set (tb := if ReadQuorum config >=? MinimumReplicaCount
             then map (backupRequest name key) _ else _) in R.
  match type of R with
  | reconcileAndReply hkey name ?vs ?s1 = _ =>
      destruct (reconcileAndReply_outcome hkey name vs s1)
        as [(e' & R' & Kind)|(winner & rest & d & tr & _ & _ & _ & R' & _)];
      rewrite R' in R; [|discriminate]
  end.
  injection R as <- <-.
  split; [exact Kind|]. split; [reflexivity|].
  exists (t ++ tb). unfold unlocked. simpl trace.
  split; [rewrite <- !app_assoc; reflexivity|].
  apply Forall_app. split.
  - eapply Forall_impl; [|exact T]. intros ev Hev.
    unfold is_lookup_request. rewrite Hev. reflexivity.
  - subst tb.
    destruct (ReadQuorum config >=? MinimumReplicaCount); [|constructor].
    apply Forall_forall. intros ev Hev. apply in_map_iff in Hev.
    destruct Hev as (b & <- & _). reflexivity.
Qed.

(** ** callGetOnCluster: the quorum *)

Lemma reconcileAndReply_quorum_error (hkey : N) (name : string)
  (versions : list version) (s s' : state) :
  reconcileAndReply hkey name versions s = Done (Err ErrReadQuorum) s' ->
  Z.of_nat (List.length versions) < ReadQuorum config \/
  (sanitizeAndSortVersions versions <> [] /\
   Z.of_nat (List.length (sanitizeAndSortVersions versions)) < ReadQuorum config).
Proof.
  unfold reconcileAndReply.
  destruct (Z.ltb_spec (Z.of_nat (List.length versions)) (ReadQuorum config));
    [auto|].
  destruct (sanitizeAndSortVersions versions) as [|winner rest];
    [discriminate|].
  destruct (Z.ltb_spec (Z.of_nat (List.length (winner :: rest)))
              (ReadQuorum config)).
  { intros _. right. split; [discriminate | assumption]. }
  rewrite run_read_dm.
  destruct (isKeyExpired _ || isKeyIdle _ _); [discriminate|].
  rewrite run_updateAccessLog, run_emit, run_bind.
  destruct (ReadRepair config).
  - match goal with
    | |- context [readRepair name winner versions ?s1] =>
        destruct (readRepair_total name winner versions s1) as (s2 & E)
    end.
    rewrite E. discriminate.
  - discriminate.
Qed.

(** X7.  With a read quorum of one or less, callGetOnCluster never returns
    ErrReadQuorum once it has its DMap: the local version alone meets the
    first check, and any version with data meets the second. *)
Theorem quorum_of_one_is_always_met
  (hkey : N) (name key : string) (s : state)
  (r : result bytes) (s' : state) :
  getDMap name hkey = None ->
  ReadQuorum config <= 1 ->
  callGetOnCluster hkey name key s = Done r s' ->
  r <> Err ErrReadQuorum.
Proof.
  intros G One R ->.
  rewrite (callGetOnCluster_run _ _ _ _ G) in R.
  destruct (getPartitionOwners hkey) as [|o owners] eqn:O.
  { unfold collectVersions in R.
    rewrite run_bind, lookupOnOwners_panics in R by exact O. discriminate. }
  destruct (collectVersions_run hkey name key
              (mkState (dmst s) (trace s ++ [EvRLock])))
    as (appended & t & C & _).
  { rewrite O. discriminate. }
  rewrite C in R. apply reconcileAndReply_quorum_error in R.
  destruct R as [Short|[NE Few]].
  - rewrite length_app in Short. simpl in Short. lia.
  - destruct (sanitizeAndSortVersions _); [congruence|].
    simpl in Few. lia.
Qed.

(** X8.  A key that nobody holds: local storage misses, no previous owner
    contributes a version, and every backup fails to answer or answers with
    a payload that does not decode.  With the replicas consulted, the local
    version and one version per backup are counted, data or not: the reply
    is ErrKeyNotFound when ReadQuorum is at most one plus the number of
    backups, and ErrReadQuorum when it is more. *)
Theorem absent_key_counts_unreachable_replicas
  (hkey : N) (name key : string) (s : state) :
  getDMap name hkey = None ->
  getPartitionOwners hkey <> [] ->
  storage_Get (dmst s) hkey = None ->
  (forall payload, nonsettable_err payload = true) ->
  Forall (fun b => backupData name key b = None)
    (getBackupPartitionOwners hkey) ->
  MinimumReplicaCount <= ReadQuorum config ->
  exists s',
    callGetOnCluster hkey name key s
    = Done
        (Err (if ReadQuorum config
                 <=? 1 + Z.of_nat (List.length (getBackupPartitionOwners hkey))
              then ErrKeyNotFound else ErrReadQuorum))
        s' /\
    dmst s' = dmst s.
Proof.
  intros G NE Miss NS Dead Gate.
  rewrite (callGetOnCluster_run _ _ _ _ G).
  destruct (lookupOnOwners_run hkey name key
              (mkState (dmst s) (trace s ++ [EvRLock])) NE)
    as (appended & t & L & _ & _ & A).
  rewrite (A NS) in L. simpl dmst in L. rewrite Miss in L.
  unfold collectVersions. rewrite run_bind, L.
  apply Z.geb_le in Gate. rewrite Gate, run_bind.
  unfold lookupOnReplicas. rewrite replicasLoop_run.
  set (bound := 1 + Z.of_nat (List.length (getBackupPartitionOwners hkey))).
  simpl.
  set (vs := mkVersion this None :: _).
  assert (Len : List.length vs
                = S (List.length (getBackupPartitionOwners hkey))).
  { subst vs. simpl. rewrite length_map. reflexivity. }
  assert (Nil : Forall (fun ver => Data ver = None) vs).
  { subst vs. constructor; [reflexivity|].
    apply Forall_forall. intros ver Hin. apply in_map_iff in Hin.
    destruct Hin as (b & <- & Hb). simpl.
    rewrite Forall_forall in Dead. auto. }
  match goal with
  | |- exists s', reconcileAndReply _ _ _ ?s1 = _ /\ _ => exists (unlocked s1)
  end.
  split.
  - destruct (Z.leb_spec (ReadQuorum config) bound) as [Met|Short];
      subst bound.
    + apply reconcileAndReply_all_nil; [rewrite Len; lia | exact Nil].
    + unfold reconcileAndReply.
      assert (Lt : (Z.of_nat (List.length vs) <? ReadQuorum config) = true)
        by (apply Z.ltb_lt; rewrite Len; lia).
      rewrite Lt. reflexivity.
  - reflexivity.
Qed.

(** ** readRepair: who is written to *)

Lemma repairEvents_count (name : string) (winner : dversion)
  (p : event -> bool) (q : version -> bool) (versions : list version) :
  (forall ver,
     List.length (filter p (repairEvents name winner ver))
     = if q ver then 1%nat else 0%nat) ->
  List.length (filter p (flat_map (repairEvents name winner) versions))
  = List.length (filter q versions).
Proof.
  intros One. induction versions as [|ver rest IH]; [reflexivity|].
  simpl. rewrite filter_app, length_app, IH, One.
  destruct (q ver); reflexivity.
Qed.

(** X9.  Read repair in closed form: its trace is, version after version,
    nothing for a version with data of the winner's timestamp; Lock, the
    local write of the winner's key, value, timestamp and ttl, Unlock for
    any other version whose host is this node; one PUT to the host for any
    other version whose host is another node, PUT-REPLICA with the winner's
    timestamp when the winner's ttl is 0 and PUT-EX-REPLICA with timestamp
    and ttl when not.  The DMap changes by the local writes alone.  So
    there is one write per version in need of repair and none besides, and
    nothing is sent to a host that compares equal to this node. *)
Theorem readRepair_one_write_per_stale_version
  (name : string) (winner : dversion) (versions : list version) (s : state) :
  readRepair name winner versions s
  = Done tt
      (mkState (fold_left (repairDMap name winner) versions (dmst s))
         (trace s ++ flat_map (repairEvents name winner) versions)) /\
  List.length
    (filter is_local_put (flat_map (repairEvents name winner) versions))
  = List.length
      (filter (fun ver => needs_repair winner ver && hostCmp (host ver) this)
         versions) /\
  List.length
    (filter is_put_request (flat_map (repairEvents name winner) versions))
  = List.length
      (filter
         (fun ver => needs_repair winner ver && negb (hostCmp (host ver) this))
         versions) /\
  Forall (repair_event name winner versions)
    (flat_map (repairEvents name winner) versions).
Proof.
  split; [apply readRepair_run|].
  split; [|split].
  - apply repairEvents_count. intros ver.
    unfold repairEvents, repairPut.
    destruct (needs_repair winner ver); destruct (hostCmp (host ver) this);
      destruct (storage.TTL (ddata winner) =? 0); reflexivity.
  - apply repairEvents_count. intros ver.
    unfold repairEvents, repairPut.
    destruct (needs_repair winner ver); destruct (hostCmp (host ver) this);
      destruct (storage.TTL (ddata winner) =? 0); reflexivity.
  - apply Forall_flat_map, Forall_forall. intros ver Hin.
    unfold repairEvents.
    destruct (needs_repair winner ver) eqn:NR; [|constructor].
    destruct (hostCmp (host ver) this) eqn:HC.
    + repeat constructor; simpl; eauto.
    + constructor; [|constructor].
      assert (W : exists v, In v versions /\ needs_repair winner v = true /\
                            hostCmp (host v) this = false /\
                            repairPut name winner (host ver)
                            = repairPut name winner (host v))
        by (exists ver; auto).
      revert W. unfold repair_event, repairPut.
      destruct (storage.TTL (ddata winner) =? 0); auto.
Qed.

(** X10.  With read repair switched off, a run of callGetOnCluster takes no
    write lock, makes no local write and sends no PUT request; the DMap
    after it is the DMap before it when an error is returned, and differs
    by the one access-log update when a value is returned. *)
Theorem get_without_read_repair_only_updates_access_log
  (hkey : N) (name key : string) (s : state)
  (r : result bytes) (s' : state) :
  ReadRepair config = false ->
  callGetOnCluster hkey name key s = Done r s' ->
  dmst s' = (if is_ok r then updateAccessLog_fn hkey (dmst s) else dmst s) /\
  exists t,
    trace s' = trace s ++ t /\
    Forall (fun e => is_write_lock e = false /\ is_put_request e = false) t.
Proof.
  intros Off R.
  destruct (getDMap name hkey) as [err|] eqn:G.
  { destruct (callGetOnCluster_needs_DMap _ _ _ _ _ _ _ G R) as [-> ->].
    split; [reflexivity|]. exists []. rewrite app_nil_r. auto. }
  rewrite (callGetOnCluster_run _ _ _ _ G) in R.
  destruct (getPartitionOwners hkey) as [|o owners] eqn:O.
  { unfold collectVersions in R.
    rewrite run_bind, lookupOnOwners_panics in R by exact O. discriminate. }
  destruct (collectVersions_run hkey name key
              (mkState (dmst s) (trace s ++ [EvRLock])))
    as (appended & t & C & T & _).
  { rewrite O. discriminate. }
  rewrite C in R. clear C. simpl dmst in R. simpl trace in R.
  set (tb := if ReadQuorum config >=? MinimumReplicaCount
             then map (backupRequest name key) _ else _) in R.
  assert (Q : Forall (fun e => is_write_lock e = false /\ is_put_request e = false)
                ([EvRLock] ++ t ++ tb)).
  { constructor; [auto|]. apply Forall_app. split.
    - eapply Forall_impl; [|exact T]. intros e He.
      destruct e as [| | | |addr op req| |]; try discriminate.
      destruct op; try discriminate. auto.
    - subst tb. destruct (ReadQuorum config >=? MinimumReplicaCount);
        [|constructor].
      apply Forall_forall. intros e He. apply in_map_iff in He.
      destruct He as (b & <- & _). auto. }
  assert (Early : forall e,
            Done (Err e)
              (unlocked (mkState (dmst s) ((trace s ++ [EvRLock]) ++ t ++ tb)))
            = Done r s' ->
            dmst s' = (if is_ok r then updateAccessLog_fn hkey (dmst s)
                       else dmst s) /\
            exists t0,
              trace s' = trace s ++ t0 /\
              Forall (fun e => is_write_lock e = false /\
                               is_put_request e = false) t0).
  { intros e E. injection E as <- <-.
    split; [reflexivity|].
    exists (([EvRLock] ++ t ++ tb) ++ [EvRUnlock]).
    unfold unlocked. simpl trace.
    split; [rewrite <- !app_assoc; reflexivity|].
    apply Forall_app. split; [exact Q | repeat constructor]. }
  unfold reconcileAndReply in R.
  destruct (Z.of_nat _ <? ReadQuorum config); [exact (Early _ R)|].
  destruct (sanitizeAndSortVersions _) as [|w ws]; [exact (Early _ R)|].
  destruct (Z.of_nat _ <? ReadQuorum config); [exact (Early _ R)|].
  rewrite run_read_dm in R.
  destruct (isKeyExpired _ || isKeyIdle _ _); [exact (Early _ R)|].
  rewrite run_updateAccessLog, run_emit, run_bind, Off in R.
  injection R as <- <-.
  split; [reflexivity|].
  exists (([EvRLock] ++ t ++ tb) ++ [EvUpdateAccessLog hkey; EvRUnlock]).
  simpl trace.
  split; [rewrite <- !app_assoc; reflexivity|].
  apply Forall_app. split; [exact Q | repeat constructor].
Qed.

(** ** sanitizeAndSortVersions: the whole slice *)

Lemma sanitize_keeps_data_versions (versions : list version) :
  map to_version (sanitize versions) = filter has_data versions.
Proof.
  induction versions as [|[h [d|]] versions IH]; simpl; [reflexivity| |exact IH].
  unfold has_data. simpl. rewrite IH. reflexivity.
Qed.

(** X11.  sanitizeAndSortVersions keeps exactly the versions with data, each
    with its host, and returns them reordered so that every version is at
    or before all the versions behind it in the comparator's order: later
    timestamps first, and for one timestamp greater value bytes first. *)
Theorem sanitizeAndSortVersions_sorted_permutation (versions : list version) :
  map to_version (sanitize versions) = filter has_data versions /\
  Permutation (sanitize versions) (sanitizeAndSortVersions versions) /\
  StronglySorted (fun y z => less (ddata y) (ddata z) = true)
    (sanitizeAndSortVersions versions) /\
  (forall a b rest l,
     sanitizeAndSortVersions versions = l ++ a :: b :: rest ->
     storage.Timestamp (ddata b) <= storage.Timestamp (ddata a)).
Proof.
  assert (S : StronglySorted (fun y z => less (ddata y) (ddata z) = true)
                (sanitizeAndSortVersions versions)).
  { unfold sanitizeAndSortVersions, sortVersions, sort_Slice.
    destruct (Nat.leb_spec (List.length (sanitize versions)) 1) as [Hle|Hgt].
    - destruct (sanitize versions) as [|x [|y l]].
      + constructor.
      + repeat constructor.
      + simpl in Hle. lia.
    - apply (insertionSort_sorted (fun vi vj => less (ddata vi) (ddata vj))).
      + intros x y. apply less_total.
      + intros x y z. apply less_trans. }
  split; [apply sanitize_keeps_data_versions|].
  split; [|split; [exact S|]].
  - unfold sanitizeAndSortVersions, sortVersions, sort_Slice.
    destruct (List.length (sanitize versions) <=? 1)%nat; [reflexivity|].
    apply insertionSort_perm.
  - intros a b rest l E. rewrite E in S.
    assert (Sab : StronglySorted (fun y z => less (ddata y) (ddata z) = true)
                    (a :: b :: rest)).
    { clear E. induction l as [|x l IH]; [exact S|].
      inversion S; subst. auto. }
    inversion Sab as [|? ? _ F]; subst.
    inversion F as [|? ? Hab _]; subst.
    apply less_true_iff in Hab. lia.
Qed.

(** ** Get *)

(** X12.  Get never hands the empty struct value to its caller.  It returns
    the error of [get] or of the serializer as it is; otherwise it returns
    nil when the serializer produced the empty struct and the serializer's
    value in every other case.  It has no effect beyond those of [get]. *)
Theorem Get_never_returns_empty_struct
  (name key : string) (s : state) (r : result iface) (s' : state) :
  DMap_Get name key s = Done r s' ->
  r <> Ok iface_empty_struct /\
  exists raw,
    get name key s = Done raw s' /\
    match raw with
    | Err e => r = Err e
    | Ok rawval =>
        match serializer_Unmarshal rawval with
        | Err e => r = Err e
        | Ok value =>
            r = Ok (if is_empty_struct value then iface_nil else value)
        end
    end.
Proof.
  unfold DMap_Get. rewrite run_bind.
  destruct (get name key s) as [[rawval|e] s1|msg]; [| |discriminate].
  - unfold ret, unmarshalValue. intros R. injection R as <- <-.
    split.
    + destruct (serializer_Unmarshal rawval) as [value|e]; [|discriminate].
      destruct value; simpl; discriminate.
    + exists (Ok rawval). split; [reflexivity|].
      destruct (serializer_Unmarshal rawval) as [value|e]; [|reflexivity].
      destruct (is_empty_struct value); reflexivity.
  - unfold ret. intros R. injection R as <- <-.
    split; [discriminate|]. exists (Err e). auto.
Qed.

(** On a node that does not own the key, [get] sends one GET to the
    owner and returns the owner's bytes or error as they are; it takes no
    lock and does not read or write the local DMap, so the reply is the
    same whatever the local DMap holds. *)
Theorem get_on_other_node_ignores_local_DMap
  (name key : string) (member : Member) (hkey : N) (s : state) :
  findPartitionOwner name key = (member, hkey) ->
  hostCmp member this = false ->
  exists r,
    (forall d,
       get name key (mkState d (trace s))
       = Done r
           (mkState d
              (trace s ++
               [EvRequest (Member_String member) protocol.OpGet
                  (protocol.mkMessage name key [] protocol.NoExtra)]))) /\
    r = match respond (Member_String member) protocol.OpGet
                (protocol.mkMessage name key [] protocol.NoExtra) with
        | Err err => Err err
        | Ok resp => Ok (protocol.Value resp)
        end.
Proof.
  intros F Other. eexists. split; [|reflexivity].
  intros d. unfold get. rewrite F, Other, run_requestTo.
  destruct (respond _ _ _); reflexivity.
Qed.

(** ** The comparator *)

(** X13.  The comparator of sortVersions puts any two records in order one
    way or the other, and is transitive.  Two records are in order both
    ways exactly when they have the same timestamp and the same value
    bytes.  A record is in order with itself, so the comparator is not a
    strict order. *)
Theorem comparator_is_total_preorder :
  (forall a b, less a b = true \/ less b a = true) /\
  (forall a b c, less a b = true -> less b c = true -> less a c = true) /\
  (forall a b, less a b = true /\ less b a = true <-> vkey a = vkey b) /\
  (forall a, less a a = true).
Proof.
  assert (Refl : forall a, less a a = true).
  { intros a. destruct (less_total a a); assumption. }
  split; [exact less_total|].
  split; [exact less_trans|].
  split; [|exact Refl].
  intros a b. split.
  - intros [Hab Hba]. apply less_antisym; assumption.
  - intros E. split.
    + rewrite (less_vkey a b b b E eq_refl). apply Refl.
    + rewrite (less_vkey b a a a (eq_sym E) eq_refl). apply Refl.
Qed.

(** ** callGetOnCluster: panics *)

(** X14.  callGetOnCluster panics in one case only: it has its DMap and the
    partition has no owner.  The owners list is never indexed out of
    range. *)
Theorem callGetOnCluster_panics_only_without_owners
  (hkey : N) (name key : string) (s : state) (msg : string) :
  callGetOnCluster hkey name key s = Panic msg <->
  getDMap name hkey = None /\
  getPartitionOwners hkey = [] /\
  msg = "partition owners list cannot be empty"%string.
Proof.
  split.
  - intros R.
    destruct (getDMap name hkey) as [err|] eqn:G.
    { unfold callGetOnCluster in R. rewrite G in R. discriminate. }
    rewrite (callGetOnCluster_run _ _ _ _ G) in R.
    destruct (getPartitionOwners hkey) as [|o owners] eqn:O.
    + unfold collectVersions in R.
      rewrite run_bind, lookupOnOwners_panics in R by exact O.
      injection R as <-. auto.
    + exfalso.
      destruct (collectVersions_run hkey name key
                  (mkState (dmst s) (trace s ++ [EvRLock])))
        as (appended & t & C & _).
      { rewrite O. discriminate. }
      rewrite C in R.
      match type of R with
      | reconcileAndReply hkey name ?vs ?s1 = _ =>
          destruct (reconcileAndReply_outcome hkey name vs s1)
            as [(e' & R' & _)|(winner & rest & d & tr & _ & _ & _ & R' & _)];
          rewrite R' in R; discriminate
      end.
  - intros (G & O & ->).
    rewrite (callGetOnCluster_run _ _ _ _ G).
    unfold collectVersions.
    rewrite run_bind, lookupOnOwners_panics by exact O. reflexivity.
Qed.

End ReadPath.

(** * The peer-side handlers *)

Section HandlerProofs.

Context {Cl : Cluster} {Hd : Handlers}.

Lemma isKeyExpired_false (ttl : Z) :
  isKeyExpired ttl = false <-> ttl = 0 \/ now < ttl.
Proof.
  unfold isKeyExpired.
  destruct (Z.eqb_spec ttl 0) as [E|NE]; simpl.
  - split; auto.
  - rewrite Z.leb_gt. split; [auto | intros [E|L]; [contradiction | exact L]].
Qed.

(** X15.  The handlers for GET-BACKUP and GET-PREV always answer, never
    write the DMap and never send a request.  getBackupOperation takes the
    read lock and releases it on every path once it has its DMap, and
    takes none when it has not; getPrevOperation takes no lock at all.
    exGetOperation answers with the bytes of [get] or with its error, and
    does what [get] does. *)
Theorem handlers_only_read (req : Message) (s : state) :
  (exists resp,
     getBackupOperation req s
     = Done resp
         (mkState (dmst s)
            (trace s ++
             match getBackupDMap (protocol.DMap req)
                     (getHKey (protocol.DMap req) (protocol.Key req)) with
             | Some _ => []
             | None => [EvRLock; EvRUnlock]
             end))) /\
  (exists resp, getPrevOperation req s = Done resp s) /\
  (forall r s',
     get (protocol.DMap req) (protocol.Key req) s = Done r s' ->
     exGetOperation req s
     = Done (match r with
             | Ok value => RespSuccess value
             | Err err => RespPrepared err
             end) s').
Proof.
  split; [|split].
  - unfold getBackupOperation.
    destruct (getBackupDMap _ _) as [err|].
    + exists (RespPrepared err). unfold ret. rewrite app_nil_r.
      destruct s; reflexivity.
    + rewrite run_emit, run_bind, run_read_dm. cbn [dmst trace].
      destruct (storage_Get (dmst s) _) as [vdata|];
        [destruct (isKeyExpired (storage.TTL vdata));
         [|destruct (msgpack_Marshal vdata)]|];
        eexists; unfold ret; rewrite run_emit; simpl;
        rewrite <- app_assoc; reflexivity.
  - unfold getPrevOperation.
    destruct (partitionHasDMap _ _); cbn [negb];
      [|eexists; reflexivity].
    rewrite run_read_dm.
    destruct (storage_Get (dmst s) _) as [vdata|];
      [destruct (isKeyExpired (storage.TTL vdata));
       [|destruct (msgpack_Marshal vdata)]|];
      eexists; reflexivity.
  - intros r s' G. unfold exGetOperation. rewrite run_bind, G.
    destruct r; reflexivity.
Qed.

Lemma getBackupOperation_success (req : Message) (s : state) (value : bytes) :
  (exists s', getBackupOperation req s = Done (RespSuccess value) s') <->
  getBackupDMap (protocol.DMap req)
    (getHKey (protocol.DMap req) (protocol.Key req)) = None /\
  exists vdata,
    storage_Get (dmst s) (getHKey (protocol.DMap req) (protocol.Key req))
    = Some vdata /\
    isKeyExpired (storage.TTL vdata) = false /\
    msgpack_Marshal vdata = Ok value.
Proof.
  unfold getBackupOperation.
  destruct (getBackupDMap _ _) as [err|].
  { split; [intros (s' & E); discriminate | intros (E & _); discriminate]. }
  rewrite run_emit, run_bind, run_read_dm. cbn [dmst trace].
  destruct (storage_Get (dmst s) _) as [vdata|].
  2:{ split; [intros (s' & E); discriminate
             | intros (_ & vd & E & _); discriminate]. }
  destruct (isKeyExpired (storage.TTL vdata)) eqn:X.
  { split; [intros (s' & E); discriminate|].
    intros (_ & vd & E & X' & _). injection E as <-. congruence. }
  destruct (msgpack_Marshal vdata) as [p|e] eqn:Mv.
  - split.
    + intros (s' & E). unfold ret in E. rewrite run_emit in E.
      injection E as -> _. split; [reflexivity|]. exists vdata. auto.
    + intros (_ & vd & E & _ & Mv'). injection E as <-.
      rewrite Mv in Mv'. injection Mv' as ->.
      eexists. unfold ret. rewrite run_emit. reflexivity.
  - split; [intros (s' & E); discriminate|].
    intros (_ & vd & E & _ & Mv'). injection E as <-. congruence.
Qed.

Lemma getPrevOperation_success (req : Message) (s : state) (value : bytes) :
  (exists s', getPrevOperation req s = Done (RespSuccess value) s') <->
  partitionHasDMap (getHKey (protocol.DMap req) (protocol.Key req))
    (protocol.DMap req) = true /\
  exists vdata,
    storage_Get (dmst s) (getHKey (protocol.DMap req) (protocol.Key req))
    = Some vdata /\
    isKeyExpired (storage.TTL vdata) = false /\
    msgpack_Marshal vdata = Ok value.
Proof.
  unfold getPrevOperation.
  destruct (partitionHasDMap _ _); cbn [negb].
  2:{ split; [intros (s' & E); discriminate | intros (E & _); discriminate]. }
  rewrite run_read_dm.
  destruct (storage_Get (dmst s) _) as [vdata|].
  2:{ split; [intros (s' & E); discriminate
             | intros (_ & vd & E & _); discriminate]. }
  destruct (isKeyExpired (storage.TTL vdata)) eqn:X.
  { split; [intros (s' & E); discriminate|].
    intros (_ & vd & E & X' & _). injection E as <-. congruence. }
  destruct (msgpack_Marshal vdata) as [p|e] eqn:Mv.
  - split.
    + intros (s' & E). injection E as -> _.
      split; [reflexivity|]. exists vdata. auto.
    + intros (_ & vd & E & _ & Mv'). injection E as <-.
      rewrite Mv in Mv'. injection Mv' as ->.
      eexists. reflexivity.
  - split; [intros (s' & E); discriminate|].
    intros (_ & vd & E & _ & Mv'). injection E as <-. congruence.
Qed.

(** X16.  Either storage handler answers with success exactly when it finds
    its DMap, storage holds the key, the stored ttl is 0 or after now, and
    the record encodes; the value is then the encoded record.  A stored
    record whose ttl is not 0 and not after now is answered with
    StatusErrKeyNotFound and the text "key expired".  A DMap that the
    partition lacks is answered by getPrevOperation with
    StatusErrKeyNotFound and no text, without a look at storage. *)
Theorem storage_handlers_serve_live_records
  (req : Message) (s : state) (value : bytes) :
  ((exists s', getBackupOperation req s = Done (RespSuccess value) s') <->
   getBackupDMap (protocol.DMap req)
     (getHKey (protocol.DMap req) (protocol.Key req)) = None /\
   exists vdata,
     storage_Get (dmst s) (getHKey (protocol.DMap req) (protocol.Key req))
     = Some vdata /\
     (storage.TTL vdata = 0 \/ now < storage.TTL vdata) /\
     msgpack_Marshal vdata = Ok value) /\
  ((exists s', getPrevOperation req s = Done (RespSuccess value) s') <->
   partitionHasDMap (getHKey (protocol.DMap req) (protocol.Key req))
     (protocol.DMap req) = true /\
   exists vdata,
     storage_Get (dmst s) (getHKey (protocol.DMap req) (protocol.Key req))
     = Some vdata /\
     (storage.TTL vdata = 0 \/ now < storage.TTL vdata) /\
     msgpack_Marshal vdata = Ok value) /\
  (forall vdata,
     storage_Get (dmst s) (getHKey (protocol.DMap req) (protocol.Key req))
     = Some vdata ->
     storage.TTL vdata <> 0 -> storage.TTL vdata <= now ->
     (getBackupDMap (protocol.DMap req)
        (getHKey (protocol.DMap req) (protocol.Key req)) = None ->
      getBackupOperation req s
      = Done (RespError StatusErrKeyNotFound "key expired")
          (mkState (dmst s) (trace s ++ [EvRLock; EvRUnlock]))) /\
     (partitionHasDMap (getHKey (protocol.DMap req) (protocol.Key req))
        (protocol.DMap req) = true ->
      getPrevOperation req s
      = Done (RespError StatusErrKeyNotFound "key expired") s)) /\
  (partitionHasDMap (getHKey (protocol.DMap req) (protocol.Key req))
     (protocol.DMap req) = false ->
   getPrevOperation req s = Done (RespError StatusErrKeyNotFound "") s).
Proof.
  split; [|split; [|split]].
  - rewrite getBackupOperation_success.
    split; intros (G & vdata & E & X & Mv); (split; [exact G|]);
      exists vdata; (split; [exact E|]); (split; [|exact Mv]);
      apply isKeyExpired_false; exact X.
  - rewrite getPrevOperation_success.
    split; intros (G & vdata & E & X & Mv); (split; [exact G|]);
      exists vdata; (split; [exact E|]); (split; [|exact Mv]);
      apply isKeyExpired_false; exact X.
  - intros vdata E NZ Past.
    assert (X : isKeyExpired (storage.TTL vdata) = true).
    { unfold isKeyExpired. apply andb_true_iff. split.
      - apply negb_true_iff, Z.eqb_neq, NZ.
      - apply Z.leb_le, Past. }
    split.
    + intros G. unfold getBackupOperation.
      rewrite G, run_emit, run_bind, run_read_dm. cbn [dmst trace].
      rewrite E, X. unfold ret. rewrite run_emit. simpl.
      rewrite <- app_assoc. reflexivity.
    + intros G. unfold getPrevOperation.
      rewrite G. cbn [negb]. rewrite run_read_dm, E, X.
      reflexivity.
  - intros G. unfold getPrevOperation. rewrite G. reflexivity.
Qed.

(** X17.  What a backup serves is what the owner collects.  When the codec
    decodes what it encoded, the backup's getBackupOperation answers with
    success, and the transport delivers that value, lookupOnReplicas
    returns for that backup a version whose data is the record the backup
    stores, and that record's ttl is 0 or after now. *)
Theorem backup_record_reaches_owner
  (name key : string) (b : Member) (sb sb' : state)
  (value : bytes) (resp : Message) (s : state) :
  (forall v p, msgpack_Marshal v = Ok p -> decodeVData p = Some v) ->
  getBackupOperation (protocol.mkMessage name key [] protocol.NoExtra) sb
  = Done (RespSuccess value) sb' ->
  respond (Member_String b) protocol.OpGetBackup
    (protocol.mkMessage name key [] protocol.NoExtra) = Ok resp ->
  protocol.Value resp = value ->
  In b (getBackupPartitionOwners (getHKey name key)) ->
  exists vdata versions s',
    storage_Get (dmst sb) (getHKey name key) = Some vdata /\
    (storage.TTL vdata = 0 \/ now < storage.TTL vdata) /\
    lookupOnReplicas (getHKey name key) name key s = Done versions s' /\
    exists ver, In ver versions /\ Data ver = Some vdata.
Proof.
  intros Codec Served Delivered Same Hb.
  destruct (proj1 (getBackupOperation_success
                     (protocol.mkMessage name key [] protocol.NoExtra)
                     sb value))
    as (_ & vdata & E & X & Mv); [eauto|].
  simpl in E.
  exists vdata. eexists. eexists.
  split; [exact E|]. split; [apply isKeyExpired_false, X|].
  unfold lookupOnReplicas. rewrite replicasLoop_run.
  split; [reflexivity|].
  eexists. split.
  - simpl. apply in_map. exact Hb.
  - simpl. unfold backupData. rewrite Delivered, Same. apply Codec, Mv.
Qed.

End HandlerProofs.

(** * Runs on the small cluster *)

(** The previous owner [n1] answers GET-PREV with a payload that decodes to
    ("k", 0x02, t = 200); lookupOnOwners returns the local version only. *)
Lemma lookupOnOwners_prev_owner_payload_lost_witness :
  respond (Cluster := demoA) "n1" protocol.OpGetPrev demo_request
  = Ok (protocol.mkMessage "" "" [Byte.xc8; Byte.x00; Byte.x02] protocol.NoExtra) /\
  decodeVData (Cluster := demoA) [Byte.xc8; Byte.x00; Byte.x02]
  = Some (storage.mkVData "k" [Byte.x02] 200 0) /\
  lookupOnOwners (Cl := demoA) 7 "d" "k" (mkState (Cl := demoA) demo_local [])
  = Done
      [mkVersion (Cl := demoA) "n0"%string
         (Some (storage.mkVData "k" [Byte.x01] 100 0))]
      (mkState (Cl := demoA) demo_local
         [EvRequest "n1" protocol.OpGetPrev demo_request]) /\
  exists appended,
    [mkVersion (Cl := demoA) "n0"%string
       (Some (storage.mkVData "k" [Byte.x01] 100 0))]
    = mkVersion (Cl := demoA) "n0"%string
        (Some (storage.mkVData "k" [Byte.x01] 100 0)) :: appended /\
    Forall (fun ver => Data ver = Some storage.zero) appended /\
    ((forall payload, nonsettable_err (Cluster := demoA) payload = true) ->
     appended = []).
Proof.
  split; [reflexivity|]. split; [reflexivity|]. split; [reflexivity|].
  exact (lookupOnOwners_prev_owner_payload_lost (Cl := demoA) 7 "d" "k"
           (mkState (Cl := demoA) demo_local []) _ _ eq_refl).
Defined.

(** On [demoE] the local copy ("k", 0x03, t = 200) wins; [n1], the last
    backup, holds ("k", 0x02, t = 200) and [n2] holds ("k", 0x01, t = 100).
    The GET returns 0x03 and its one repair write is a PUT-REPLICA to [n1];
    [n2] gets none. *)
Lemma readRepair_writes_to_host_of_tie_broken_loser_witness :
  callGetOnCluster (Cl := demoE) 7 "d" "k"
    (mkState (Cl := demoE) demo_tie [])
  = Done (Ok [Byte.x03])
      (mkState (Cl := demoE)
         (mkDemoDMap (demo_storage demo_tie) [7%N])
         [EvRLock;
          EvRequest "n2" protocol.OpGetBackup demo_request;
          EvRequest "n1" protocol.OpGetBackup demo_request;
          EvUpdateAccessLog 7; EvRUnlock;
          EvRequest "n1" protocol.OpPutReplica
            (protocol.mkMessage "d" "k" [Byte.x03] (protocol.PutExtra 200))]) /\
  exists versions s1,
    lookupOnReplicas (Cl := demoE) 7 "d" "k"
      (mkState (Cl := demoE) demo_tie []) = Done versions s1 /\
    In (mkVersion (Cl := demoE) "n1"%string
          (Some (storage.mkVData "k" [Byte.x02] 200 0)))
       versions /\
    (forall s0,
       readRepair (Cl := demoE) "d" demo_tie_winner
         [mkVersion (Cl := demoE) "n1"%string
            (Some (storage.mkVData "k" [Byte.x02] 200 0))] s0
       = Done tt s0) /\
    (forall s0,
       exists s2 t1 t2,
         readRepair (Cl := demoE) "d" demo_tie_winner
           ([to_version demo_tie_winner] ++ versions) s0 = Done tt s2 /\
         trace s2
         = trace s0 ++ t1 ++
           repairPut (Cl := demoE) "d" demo_tie_winner "n1"%string :: t2).
Proof.
  split; [reflexivity|].
  apply (readRepair_writes_to_host_of_tie_broken_loser (Cl := demoE)
           7 "d" "k" demo_tie_winner ["n2"%string] "n2"%string "n1"%string
           (storage.mkVData "k" [Byte.x02] 200 0)
           [to_version demo_tie_winner]
           (mkState (Cl := demoE) demo_tie [])).
  - reflexivity.
  - reflexivity.
  - simpl. auto.
  - reflexivity.
  - reflexivity.
  - reflexivity.
  - simpl. discriminate.
  - reflexivity.
Defined.

(** On a single node whose copy expired at 40, a GET at 50 unlocks and
    returns ErrKeyNotFound. *)
Lemma expired_or_idle_winner_reads_as_absent_witness :
  callGetOnCluster (Cl := demoD) 7 "d" "k"
    (mkState (Cl := demoD) demo_expired [])
  = Done (Err ErrKeyNotFound)
      (unlocked (mkState (Cl := demoD) demo_expired [EvRLock])) /\
  (forall absent,
     Forall (fun ver => Data ver = None) absent ->
     ReadQuorum (config (Cluster := demoD)) <= Z.of_nat (List.length absent) ->
     reconcileAndReply (Cl := demoD) 7 "d" absent
       (mkState (Cl := demoD) demo_expired [EvRLock])
     = Done (Err ErrKeyNotFound)
         (unlocked (mkState (Cl := demoD) demo_expired [EvRLock]))).
Proof.
  apply (expired_or_idle_winner_reads_as_absent (Cl := demoD) 7 "d" "k"
           (mkState (Cl := demoD) demo_expired [])
           [mkVersion (Cl := demoD) "n0"%string
              (Some (storage.mkVData "k" [Byte.x01] 100 40))]
           (mkState (Cl := demoD) demo_expired [EvRLock])
           (mkDversion (Cl := demoD) "n0"%string
              (storage.mkVData "k" [Byte.x01] 100 40))
           []).
  - reflexivity.
  - reflexivity.
  - simpl. lia.
  - reflexivity.
  - simpl. lia.
  - left. simpl. split; [discriminate | lia].
Defined.

(** A GET on [demoA] returns a value and calls updateAccessLog once. *)
Lemma access_log_updated_only_on_success_witness :
  exists r s',
    callGetOnCluster (Cl := demoA) 7 "d" "k"
      (mkState (Cl := demoA) demo_local []) = Done r s' /\
    is_ok r = true /\
    exists t,
      trace s' = trace (mkState (Cl := demoA) demo_local []) ++ t /\
      count_updates t = (if is_ok r then 1 else 0)%nat /\
      (is_ok r = true -> In (EvUpdateAccessLog 7) t) /\
      (is_ok r = false ->
       dmst s' = dmst (mkState (Cl := demoA) demo_local [])).
Proof.
  eexists. eexists.
  split; [lazy; reflexivity|]. split; [reflexivity|].
  apply (access_log_updated_only_on_success (Cl := demoA) 7 "d" "k").
  reflexivity.
Defined.

(** On [demoA] the read quorum 1 reaches the minimum 1: the backup [n2] is
    asked. *)
Lemma replicas_consulted_witness :
  exists versions s',
    collectVersions (Cl := demoA) 7 "d" "k"
      (mkState (Cl := demoA) demo_local []) = Done versions s' /\
    exists own s1 t,
      lookupOnOwners (Cl := demoA) 7 "d" "k"
        (mkState (Cl := demoA) demo_local []) = Done own s1 /\
      versions
      = own ++
        (if MinimumReplicaCount (Cluster := demoA)
            <=? ReadQuorum (config (Cluster := demoA)) then
           map (fun b =>
                  mkVersion (Cl := demoA)
                    (replicaCell (Cl := demoA)
                       (getBackupPartitionOwners (Cluster := demoA) 7) b)
                    (backupData (Cl := demoA) "d" "k" b))
             (getBackupPartitionOwners (Cluster := demoA) 7)
         else []) /\
      trace s' = trace (mkState (Cl := demoA) demo_local []) ++ t /\
      count_requests protocol.OpGetBackup t
      = (if MinimumReplicaCount (Cluster := demoA)
            <=? ReadQuorum (config (Cluster := demoA)) then
           List.length (getBackupPartitionOwners (Cluster := demoA) 7)
         else 0%nat).
Proof.
  eexists. eexists.
  split; [lazy; reflexivity|].
  apply (replicas_consulted_iff_read_quorum_reaches_minimum (Cl := demoA)
           7 "d" "k").
  reflexivity.
Defined.

(** C8, as stated, fails.  On [demoB] three replicas are configured and the
    partition has three backups, above the minimum of two, yet no backup is
    asked and the version set is the local version alone, because the read
    quorum is one; likewise on [demoF], with two configured replicas, one
    backup, a minimum of one and a read quorum of zero.  On [demoC] the
    configured replica count is below the minimum, yet the backup is asked
    and its version joins the set. *)
Lemma replicas_gate_ignores_replica_count :
  (MinimumReplicaCount (Cluster := demoB)
     < ReplicaCount (config (Cluster := demoB)) /\
   getBackupPartitionOwners (Cluster := demoB) 7
   = ["n1"; "n2"; "n3"]%string /\
   collectVersions (Cl := demoB) 7 "d" "k"
     (mkState (Cl := demoB) demo_local [])
   = Done [demo_local_version demoB] (mkState (Cl := demoB) demo_local [])) /\
  (MinimumReplicaCount (Cluster := demoF)
     < ReplicaCount (config (Cluster := demoF)) /\
   getBackupPartitionOwners (Cluster := demoF) 7 = ["n2"]%string /\
   collectVersions (Cl := demoF) 7 "d" "k"
     (mkState (Cl := demoF) demo_local [])
   = Done [demo_local_version demoF] (mkState (Cl := demoF) demo_local [])) /\
  (ReplicaCount (config (Cluster := demoC))
     < MinimumReplicaCount (Cluster := demoC) /\
   collectVersions (Cl := demoC) 7 "d" "k"
     (mkState (Cl := demoC) demo_local [])
   = Done
       [demo_local_version demoC;
        mkVersion (Cl := demoC) "n2"%string
          (Some (storage.mkVData "k" [Byte.x01] 100 0))]
       (mkState (Cl := demoC) demo_local
          [EvRequest "n2" protocol.OpGetBackup demo_request])).
Proof.
  split; [|split].
  - split; [simpl; lia|]. split; reflexivity.
  - split; [simpl; lia|]. split; reflexivity.
  - split; [simpl; lia|]. reflexivity.
Qed.

(** On a single node whose copy holds no bytes, [Get] returns nil, nil. *)
Lemma Get_returns_nil_for_empty_struct_witness :
  exists s',
    get (Cl := demoD) "d" "k" (mkState (Cl := demoD) demo_empty [])
    = Done (Ok []) s' /\
    serializer_Unmarshal (Cluster := demoD) [] = Ok iface_empty_struct /\
    DMap_Get (Cl := demoD) "d" "k" (mkState (Cl := demoD) demo_empty [])
    = Done (Ok iface_nil) s'.
Proof.
  eexists.
  split; [lazy; reflexivity|]. split; [reflexivity|].
  apply (Get_returns_nil_for_empty_struct (Cl := demoD) "d" "k"
           (mkState (Cl := demoD) demo_empty []) []).
  - reflexivity.
  - reflexivity.
Defined.

(** On [demoE], against the winner ("k", 0x03, t = 200), the answer of
    [n2] is behind and that of [n1] is not: read repair over the replica
    versions sends its one PUT to [n1]. *)
Lemma read_repair_writes_only_to_last_backup_witness :
  exists versions s1,
    lookupOnReplicas (Cl := demoE) 7 "d" "k"
      (mkState (Cl := demoE) demo_tie []) = Done versions s1 /\
    Forall (fun ver => host (Cl := demoE) ver = "n1"%string) versions /\
    forall s0,
      readRepair (Cl := demoE) "d" demo_tie_winner versions s0
      = Done tt
          (mkState (Cl := demoE) (dmst s0)
             (trace s0 ++
              repeat (repairPut (Cl := demoE) "d" demo_tie_winner "n1"%string)
                (List.length
                   (filter
                      (fun b =>
                         needs_repair (Cl := demoE) demo_tie_winner
                           (mkVersion (Cl := demoE) b
                              (backupData (Cl := demoE) "d" "k" b)))
                      (["n2"%string] ++ ["n1"%string]))))).
Proof.
  apply (read_repair_writes_only_to_last_backup (Cl := demoE)
           7 "d" "k" demo_tie_winner ["n2"%string] "n1"%string
           (mkState (Cl := demoE) demo_tie [])).
  - reflexivity.
  - reflexivity.
  - reflexivity.
Defined.

(** With the winner at t = 100 and two versions at t = 100, read repair
    leaves the state as it is. *)
Lemma readRepair_silent_when_consistent_witness :
  readRepair (Cl := demoA) "d" demo_winner [demo_loser; to_version demo_winner]
    (mkState (Cl := demoA) demo_local [])
  = Done tt (mkState (Cl := demoA) demo_local []).
Proof.
  apply (readRepair_silent_when_consistent (Cl := demoA) "d" demo_winner
           [demo_loser; to_version demo_winner]).
  repeat constructor.
  - exists (storage.mkVData "k" [Byte.x01] 100 0). split; reflexivity.
  - exists (storage.mkVData "k" [Byte.x02] 100 0). split; reflexivity.
Defined.

(** A GET on [demoE] repairs the local copy: the write lock is taken after
    the read lock is released. *)
Lemma read_lock_released_before_repair_witness :
  exists r s',
    callGetOnCluster (Cl := demoE) 7 "d" "k"
      (mkState (Cl := demoE) demo_local []) = Done r s' /\
    In EvLock (trace s') /\
    exists t1 t2,
      trace s'
      = trace (mkState (Cl := demoE) demo_local [])
        ++ [EvRLock] ++ t1 ++ [EvRUnlock] ++ t2 /\
      Forall (fun e => is_read_lock e = false /\ is_write_lock e = false) t1 /\
      Forall (fun e => is_read_lock e = false) t2.
Proof.
  eexists. eexists.
  split; [lazy; reflexivity|].
  split; [simpl; tauto|].
  eapply (read_lock_released_before_repair (Cl := demoE) 7 "d" "k"
            (mkState (Cl := demoE) demo_local [])).
  - reflexivity.
  - lazy. reflexivity.
Defined.

(** ** Runs for the rest of the read path *)

(** On [demoE] the GET returns 0x02, the value of the version with the
    latest timestamp. *)
Lemma callGetOnCluster_returns_newest_live_value_witness :
  exists s',
    callGetOnCluster (Cl := demoE) 7 "d" "k"
      (mkState (Cl := demoE) demo_local []) = Done (Ok [Byte.x02]) s' /\
    exists versions s1 winner,
      collectVersions (Cl := demoE) 7 "d" "k"
        (mkState (Cl := demoE) demo_local ([] ++ [EvRLock]))
      = Done versions s1 /\
      In (to_version winner) versions /\
      [Byte.x02] = storage.Value (ddata winner) /\
      (forall ver d,
         In ver versions -> Data ver = Some d ->
         storage.Timestamp d <= storage.Timestamp (ddata winner) /\
         (storage.Timestamp d = storage.Timestamp (ddata winner) ->
          bytes_Compare (storage.Value (ddata winner)) (storage.Value d) >= 0)) /\
      isKeyExpired (Cl := demoE) (storage.TTL (ddata winner)) = false /\
      isKeyIdle (Cluster := demoE) demo_local 7 = false /\
      ReadQuorum (config (Cluster := demoE))
      <= Z.of_nat (List.length (filter has_data versions)).
Proof.
  eexists. split; [lazy; reflexivity|].
  eapply (callGetOnCluster_returns_newest_live_value (Cl := demoE) 7 "d" "k"
            (mkState (Cl := demoE) demo_local [])).
  lazy. reflexivity.
Defined.

(** On the single node whose copy expired, the error is ErrKeyNotFound and
    the run is lock, unlock. *)
Lemma callGetOnCluster_errors_witness :
  exists s',
    callGetOnCluster (Cl := demoD) 7 "d" "k"
      (mkState (Cl := demoD) demo_expired [])
    = Done (Err ErrKeyNotFound) s' /\
    ((getDMap (Cluster := demoD) "d" 7 = Some ErrKeyNotFound /\
      s' = mkState (Cl := demoD) demo_expired []) \/
     (getDMap (Cluster := demoD) "d" 7 = None /\
      (ErrKeyNotFound = ErrReadQuorum \/ ErrKeyNotFound = ErrKeyNotFound) /\
      dmst s' = demo_expired /\
      exists t,
        trace s' = [] ++ [EvRLock] ++ t ++ [EvRUnlock] /\
        Forall (fun ev => is_lookup_request ev = true) t)).
Proof.
  eexists. split; [lazy; reflexivity|].
  apply (callGetOnCluster_errors (Cl := demoD) 7 "d" "k"
           (mkState (Cl := demoD) demo_expired [])).
  reflexivity.
Defined.

(** On [demoA] the read quorum is one. *)
Lemma quorum_of_one_is_always_met_witness :
  exists r s',
    callGetOnCluster (Cl := demoA) 7 "d" "k"
      (mkState (Cl := demoA) demo_local []) = Done r s' /\
    r <> Err ErrReadQuorum.
Proof.
  eexists. eexists. split; [lazy; reflexivity|].
  apply (quorum_of_one_is_always_met (Cl := demoA) 7 "d" "k"
           (mkState (Cl := demoA) demo_local [])
           (Ok [Byte.x01])
           (mkState (Cl := demoA)
              (mkDemoDMap (demo_storage demo_local) [7%N])
              [EvRLock;
               EvRequest "n1" protocol.OpGetPrev demo_request;
               EvRequest "n2" protocol.OpGetBackup demo_request;
               EvUpdateAccessLog 7; EvRUnlock])).
  - reflexivity.
  - simpl. lia.
  - reflexivity.
Defined.

(** On [demoH] nobody holds the key and no backup answers; with a read
    quorum of two and two backups the reply is ErrKeyNotFound. *)
Lemma absent_key_counts_unreachable_replicas_witness :
  exists s',
    callGetOnCluster (Cl := demoH) 7 "d" "k"
      (mkState (Cl := demoH) demo_none [])
    = Done
        (Err (if ReadQuorum (config (Cluster := demoH))
                 <=? 1 + Z.of_nat
                          (List.length
                             (getBackupPartitionOwners (Cluster := demoH) 7))
              then ErrKeyNotFound else ErrReadQuorum))
        s' /\
    dmst s' = dmst (mkState (Cl := demoH) demo_none []).
Proof.
  apply (absent_key_counts_unreachable_replicas (Cl := demoH) 7 "d" "k"
           (mkState (Cl := demoH) demo_none [])).
  - reflexivity.
  - simpl. discriminate.
  - reflexivity.
  - intros payload. reflexivity.
  - repeat constructor.
  - simpl. lia.
Defined.

(** On [demoG] the GET returns a value, updates the access log and writes
    nothing else, though the local copy is stale. *)
Lemma get_without_read_repair_only_updates_access_log_witness :
  exists r s',
    callGetOnCluster (Cl := demoG) 7 "d" "k"
      (mkState (Cl := demoG) demo_local []) = Done r s' /\
    r = Ok [Byte.x02] /\
    dmst s'
    = (if is_ok r
       then updateAccessLog_fn (Cluster := demoG) 7
              (dmst (mkState (Cl := demoG) demo_local []))
       else dmst (mkState (Cl := demoG) demo_local [])) /\
    exists t,
      trace s' = trace (mkState (Cl := demoG) demo_local []) ++ t /\
      Forall (fun e => is_write_lock e = false /\ is_put_request e = false) t.
Proof.
  eexists. eexists. split; [lazy; reflexivity|]. split; [reflexivity|].
  apply (get_without_read_repair_only_updates_access_log (Cl := demoG)
           7 "d" "k" (mkState (Cl := demoG) demo_local [])).
  - reflexivity.
  - reflexivity.
Defined.

(** On the single node whose copy holds no bytes, the serializer gives the
    empty struct and [Get] gives nil. *)
Lemma Get_never_returns_empty_struct_witness :
  exists r s',
    DMap_Get (Cl := demoD) "d" "k" (mkState (Cl := demoD) demo_empty [])
    = Done r s' /\
    r = Ok iface_nil /\
    r <> Ok iface_empty_struct /\
    exists raw,
      get (Cl := demoD) "d" "k" (mkState (Cl := demoD) demo_empty [])
      = Done raw s' /\
      match raw with
      | Err e => r = Err e
      | Ok rawval =>
          match serializer_Unmarshal (Cluster := demoD) rawval with
          | Err e => r = Err e
          | Ok value =>
              r = Ok (if is_empty_struct value then iface_nil else value)
          end
      end.
Proof.
  eexists. eexists. split; [lazy; reflexivity|]. split; [reflexivity|].
  apply (Get_never_returns_empty_struct (Cl := demoD) "d" "k"
           (mkState (Cl := demoD) demo_empty [])).
  reflexivity.
Defined.

(** On [demoRemote] the owner is [n1]: one GET goes there and its bytes come
    back, whatever the local DMap is. *)
Lemma get_on_other_node_ignores_local_DMap_witness :
  exists r,
    (forall d,
       get (Cl := demoRemote) "d" "k" (mkState (Cl := demoRemote) d [])
       = Done r
           (mkState (Cl := demoRemote) d
              ([] ++ [EvRequest "n1" protocol.OpGet demo_request]))) /\
    r = match respond (Cluster := demoRemote) "n1" protocol.OpGet demo_request
        with
        | Err err => Err err
        | Ok resp => Ok (protocol.Value resp)
        end.
Proof.
  apply (get_on_other_node_ignores_local_DMap (Cl := demoRemote) "d" "k"
           "n1"%string 7%N (mkState (Cl := demoRemote) demo_local [])).
  - reflexivity.
  - reflexivity.
Defined.

Lemma demo_codec_round_trip (v : VData) (p : bytes) :
  demo_encode v = Ok p -> demo_decode p = Some v.
Proof.
  unfold demo_encode. destruct v as [k val ts ttl]. simpl.
  destruct (String.eqb_spec k "k") as [->|]; [|discriminate].
  destruct (Z.leb_spec 0 ts) as [Hts|]; [|discriminate].
  destruct (Z.leb_spec 0 ttl) as [Httl|]; [|discriminate].
  simpl.
  destruct (Byte.of_N (Z.to_N ts)) as [bt|] eqn:E1; [|discriminate].
  destruct (Byte.of_N (Z.to_N ttl)) as [bl|] eqn:E2; [|discriminate].
  intros Enc. injection Enc as <-. simpl.
  apply Byte.to_of_N in E1. apply Byte.to_of_N in E2.
  rewrite E1, E2, !Z2N.id by lia. reflexivity.
Qed.

(** The backup [n2] of [demoA] stores ("k", 0x01, t = 100); its handler
    serves the encoded record, and the owner's lookupOnReplicas returns a
    version with that record. *)
Lemma backup_record_reaches_owner_witness :
  exists vdata versions s',
    storage_Get (Cluster := demoA)
      (dmst (mkState (Cl := demoA) demo_local []))
      (getHKey (Cluster := demoA) "d" "k") = Some vdata /\
    (storage.TTL vdata = 0 \/ now (Cluster := demoA) < storage.TTL vdata) /\
    lookupOnReplicas (Cl := demoA) (getHKey (Cluster := demoA) "d" "k")
      "d" "k" (mkState (Cl := demoA) demo_none [])
    = Done versions s' /\
    exists ver, In ver versions /\ Data ver = Some vdata.
Proof.
  apply (backup_record_reaches_owner (Cl := demoA) (Hd := demoHandlers demoA)
           "d" "k" "n2"%string
           (mkState (Cl := demoA) demo_local [])
           (mkState (Cl := demoA) demo_local [EvRLock; EvRUnlock])
           [Byte.x64; Byte.x00; Byte.x01]
           (protocol.mkMessage EmptyString EmptyString
              [Byte.x64; Byte.x00; Byte.x01] protocol.NoExtra)).
  - exact demo_codec_round_trip.
  - reflexivity.
  - reflexivity.
  - reflexivity.
  - simpl. auto.
Defined.
